(** * igusMotionEditor: wire protocol, device dispatcher and sequencer, host uploader

    A shallow embedding of the motion control and transport stack of the
    igus robolink motion editor:

    - [proto]       : [Source/microcontroller/protocol.h]
    - [Decoder]     : the packet decoder [cmd_input] of
                      [Source/microcontroller/commands.cpp]
    - [Device]      : [Source/microcontroller/mem.cpp], the buffer
                      operations of [Source/microcontroller/motion.cpp] and
                      the dispatcher [handleCommand] of [commands.cpp]
    - [Sequencer]   : the velocity controller of [motion_runSequence]
    - [Passthrough] : the mode-switch matcher of the device's [main]
    - [Host]        : the tick transform and the uploader of
                      [RobotInterface], and the build phase of
                      [KeyframePlayer]
    - [KeyframeText]: the text format of [Source/Keyframe.cpp]
    - [RingBuffer]  : the communication buffers of [combuf.h]
    - [DeviceLoop]  : the byte loop around [cmd_input] and
                      [motion_loadSequence]
    - [HostTx]      : [motionIn] and [extSendConfig] of [RobotInterface]
    - [NanoJ]       : the position control of
                      [Drivers/NanoJMotorControl.java]
    - [Nanotec]     : [readResponse] and [isResponse] of
                      [Source/microcontroller/nanotec.cpp]

    Machine integers are [Z] with the wrap-around of their C type written
    out; bytes are [Z] in [0, 256).  Host-side [double] values are rationals
    ([Q]) with exact arithmetic: every finite [double] is a rational, and
    the rounding of the floating-point operations is left out.  The
    definitions come first, the properties follow from [Properties] on. *)

From Stdlib Require Import ZArith QArith Qround Qabs Lia Lqa Bool.
From Stdlib Require Import Ascii String DecimalString.
From stdpp Require Import base list gmap strings.

Local Open Scope Z_scope.

(** ** Fixed-width integers *)

Definition u8 (z : Z) : Z := z mod 256.
Definition u16 (z : Z) : Z := z mod 65536.
Definition u32 (z : Z) : Z := z mod 4294967296.
Definition s16 (z : Z) : Z := (z + 32768) mod 65536 - 32768.
Definition s32 (z : Z) : Z := (z + 2147483648) mod 4294967296 - 2147483648.

(** [abs] on the device is avr-libc's [int abs(int)], and [int] has 16
    bits there: the argument is narrowed before the sign is dropped. *)
Definition c_abs (z : Z) : Z := s16 (Z.abs (s16 z)).

(** ** The wire protocol ([protocol.h]) *)

Module proto.

Definition VERSION : Z := 10.
Definition NUM_AXES : Z := 8.
Definition MAX_KEYFRAMES : Z := 128.
Definition NT_POSITION_BIAS : Z := 16384.

Definition CMD_INIT : Z := 0.
Definition CMD_RESET : Z := 1.
Definition CMD_CONFIG : Z := 2.
Definition CMD_READ_KEYFRAME : Z := 3.
Definition CMD_SAVE_KEYFRAME : Z := 4.
Definition CMD_EXIT : Z := 5.
Definition CMD_COMMIT : Z := 6.
Definition CMD_PLAY : Z := 7.
Definition CMD_STOP : Z := 8.
Definition CMD_FEEDBACK : Z := 9.
Definition CMD_MOTION : Z := 10.
Definition CMD_COUNT : Z := 11.

Definition OC_SET : Z := 1.
Definition OC_RESET : Z := 2.

Definition FF_PLAYING : Z := 1.
Definition PF_LOOP : Z := 1.

(** [struct PacketHeader]: four bytes, [start] fixed to 0xFF. *)
Record PacketHeader := {
  start : Z;
  version : Z;
  command : Z;
  length : Z
}.

Definition mkHeader (_command _payloadLength : Z) : PacketHeader :=
  {| start := 255; version := VERSION;
     command := u8 _command; length := u8 _payloadLength |}.

Definition header_bytes (h : PacketHeader) : list Z :=
  [start h; version h; command h; length h].

(** [struct Keyframe] (packed, 19 bytes). *)
Record Keyframe := {
  duration : Z;
  ticks : list Z;
  output_command : Z
}.

(** [struct Config] (packed, 22 bytes). *)
Record Config := {
  num_keyframes : Z;
  active_axes : Z;
  enc_to_mot : list Z;
  lookahead : Z
}.

Definition sizeof_Keyframe : Z := 19.
Definition sizeof_SaveKeyframe : Z := 20.
Definition sizeof_ReadKeyframe : Z := 1.
Definition sizeof_Config : Z := 22.

Definition RESET_KEY : list Z := [10; 101; 56; 71; 130; 171; 191; 0].

(** The sum-and-complement checksum.  A null [payload] pointer is
    [None]; otherwise the first [length] bytes are added. *)
Definition packetChecksum (header : PacketHeader) (payload : option (list Z)) : Z :=
  let checksum := u8 (command header + version header + length header) in
  let checksum :=
    match payload with
    | Some p =>
        fold_left (fun acc b => u8 (acc + b))
                  (take (Z.to_nat (length header)) p) checksum
    | None => checksum
    end in
  u8 (Z.lnot checksum).

(** Byte image of [SimplePacket<Cmd>]. *)
Definition SimplePacket (Cmd : Z) : list Z :=
  let header := mkHeader Cmd 0 in
  header_bytes header ++ [packetChecksum header None; 13].

(** Byte image of [Packet<Cmd, Payload>] after [updateChecksum], for a
    payload given by its bytes. *)
Definition Packet (Cmd : Z) (payload : list Z) : list Z :=
  let header := mkHeader Cmd (Z.of_nat (List.length payload)) in
  header_bytes header ++ payload ++ [packetChecksum header (Some payload); 13].

(** Little-endian field access in a packed payload. *)
Definition byte_at (p : list Z) (i : nat) : Z := default 0 (p !! i).
Definition u16_at (p : list Z) (i : nat) : Z :=
  byte_at p i + 256 * byte_at p (S i).
Definition u16_array_at (p : list Z) (i n : nat) : list Z :=
  map (fun k => u16_at p (i + 2 * k)) (seq 0 n).

Definition u16_bytes (z : Z) : list Z := [z mod 256; (z / 256) mod 256].

Definition decode_Keyframe (p : list Z) (off : nat) : Keyframe :=
  {| duration := u16_at p off;
     ticks := u16_array_at p (off + 2) 8;
     output_command := byte_at p (off + 18) |}.

Definition encode_Keyframe (k : Keyframe) : list Z :=
  u16_bytes (duration k) ++ concat (map u16_bytes (ticks k))
    ++ [output_command k].

Definition decode_Config (p : list Z) : Config :=
  {| num_keyframes := u16_at p 0;
     active_axes := u16_at p 2;
     enc_to_mot := u16_array_at p 4 8;
     lookahead := u16_at p 20 |}.

Definition encode_Config (c : Config) : list Z :=
  u16_bytes (num_keyframes c) ++ u16_bytes (active_axes c)
    ++ concat (map u16_bytes (enc_to_mot c)) ++ u16_bytes (lookahead c).

End proto.

(** ** The packet decoder of [commands.cpp] *)

Module Decoder.

Inductive ParserState :=
| PS_START | PS_VERSION | PS_COMMAND | PS_LENGTH
| PS_PAYLOAD | PS_CHECKSUM | PS_END.

(** The decoder's globals. [payloadBuffer] has [PAYLOAD_BUFSIZE] = 256
    entries. *)
Record Parser := {
  parser_state : ParserState;
  command : Z;
  payloadLength : Z;
  payloadIdx : Z;
  payloadBuffer : list Z
}.

Definition PAYLOAD_BUFSIZE : Z := 256.

(** What [cmd_input] hands to [handleCommand] when a packet is complete. *)
Record Parsed := {
  pk_command : Z;
  pk_payload : list Z;
  pk_length : Z
}.

Definition set_state (p : Parser) (s : ParserState) : Parser :=
  {| parser_state := s; command := command p;
     payloadLength := payloadLength p; payloadIdx := payloadIdx p;
     payloadBuffer := payloadBuffer p |}.

(** One call of [cmd_input(c)], up to the call of [handleCommand]: the
    new decoder state and, when the terminator closes a packet, the
    arguments of the dispatch. *)
Definition parser_step (p : Parser) (c : Z) : Parser * option Parsed :=
  match parser_state p with
  | PS_START =>
      ({| parser_state := if Z.eqb c 255 then PS_VERSION else PS_START;
          command := command p; payloadLength := payloadLength p;
          payloadIdx := 0; payloadBuffer := payloadBuffer p |}, None)
  | PS_VERSION =>
      (set_state p (if Z.eqb c proto.VERSION then PS_COMMAND else PS_START),
       None)
  | PS_COMMAND =>
      ({| parser_state := if Z.ltb c proto.CMD_COUNT then PS_LENGTH else PS_START;
          command := c; payloadLength := payloadLength p;
          payloadIdx := payloadIdx p; payloadBuffer := payloadBuffer p |}, None)
  | PS_LENGTH =>
      ({| parser_state := if Z.eqb c 0 then PS_CHECKSUM else PS_PAYLOAD;
          command := command p; payloadLength := c;
          payloadIdx := payloadIdx p; payloadBuffer := payloadBuffer p |}, None)
  | PS_PAYLOAD =>
      let idx := u8 (payloadIdx p + 1) in
      ({| parser_state :=
            if Z.eqb idx (payloadLength p) then PS_CHECKSUM else PS_PAYLOAD;
          command := command p; payloadLength := payloadLength p;
          payloadIdx := idx;
          payloadBuffer := <[Z.to_nat (payloadIdx p) := c]> (payloadBuffer p) |},
       None)
  | PS_CHECKSUM =>
      let checksum := u8 (proto.VERSION + command p + payloadLength p) in
      let checksum :=
        fold_left (fun acc b => u8 (acc + b))
                  (take (Z.to_nat (payloadLength p)) (payloadBuffer p))
                  checksum in
      let checksum := u8 (Z.lnot checksum) in
      (set_state p (if Z.eqb checksum c then PS_END else PS_START), None)
  | PS_END =>
      (set_state p PS_START,
       if Z.eqb c 13
       then Some {| pk_command := command p;
                    pk_payload := payloadBuffer p;
                    pk_length := payloadLength p |}
       else None)
  end.

(** Feeding a byte sequence, collecting the packets handed over. *)
Fixpoint feed (p : Parser) (bytes : list Z) : Parser * list Parsed :=
  match bytes with
  | [] => (p, [])
  | c :: rest =>
      let '(p1, o) := parser_step p c in
      let '(p2, out) := feed p1 rest in
      (p2, match o with Some pk => pk :: out | None => out end)
  end.

(** The sender's image of a packet with command [c] and payload
    [payload]: header, payload, checksum, terminator. *)
Definition encode (c : Z) (payload : list Z) : list Z :=
  proto.Packet c payload.

End Decoder.

(** ** The device: persistent store, RAM buffer and command dispatcher

    [mem.cpp], the buffer operations of [motion.cpp] and [handleCommand],
    [cmd_input] of [commands.cpp].  The device's globals are the fields of
    [State]; what it sends is logged: [to_pc] are the bytes queued for the
    host, [bus] the transactions with the motor controllers and [outputs]
    the calls of [io_setOutput].  A routine returns [None] when the C++
    code does not return to its caller with a defined state: the jump into
    the bootloader, a loop that cannot end, an access outside an array. *)

Module Device.
Import proto.

Inductive BusOp :=
| SetDestination (id dest : Z)
| SetVelocity (id vel : Z)
| ReadEncoder (id : Z).

Record State := mkState {
  mem_config : Config;
  g_buffer : list Keyframe;
  g_keyframe_memory : list Keyframe;
  g_config_memory : Config;
  g_isPlaying : bool;
  g_shouldStop : bool;
  g_extShouldQuit : bool;
  g_encPos : list Z;
  parser : Decoder.Parser;
  to_pc : list Z;
  bus : list BusOp;
  outputs : list bool
}.

Definition set_mem_config (c : Config) (st : State) : State :=
  mkState c (g_buffer st) (g_keyframe_memory st) (g_config_memory st)
          (g_isPlaying st) (g_shouldStop st) (g_extShouldQuit st)
          (g_encPos st) (parser st) (to_pc st) (bus st) (outputs st).

Definition set_g_buffer (b : list Keyframe) (st : State) : State :=
  mkState (mem_config st) b (g_keyframe_memory st) (g_config_memory st)
          (g_isPlaying st) (g_shouldStop st) (g_extShouldQuit st)
          (g_encPos st) (parser st) (to_pc st) (bus st) (outputs st).

Definition set_g_keyframe_memory (m : list Keyframe) (st : State) : State :=
  mkState (mem_config st) (g_buffer st) m (g_config_memory st)
          (g_isPlaying st) (g_shouldStop st) (g_extShouldQuit st)
          (g_encPos st) (parser st) (to_pc st) (bus st) (outputs st).

Definition set_g_config_memory (c : Config) (st : State) : State :=
  mkState (mem_config st) (g_buffer st) (g_keyframe_memory st) c
          (g_isPlaying st) (g_shouldStop st) (g_extShouldQuit st)
          (g_encPos st) (parser st) (to_pc st) (bus st) (outputs st).

Definition set_g_shouldStop (b : bool) (st : State) : State :=
  mkState (mem_config st) (g_buffer st) (g_keyframe_memory st)
          (g_config_memory st) (g_isPlaying st) b (g_extShouldQuit st)
          (g_encPos st) (parser st) (to_pc st) (bus st) (outputs st).

Definition set_g_extShouldQuit (b : bool) (st : State) : State :=
  mkState (mem_config st) (g_buffer st) (g_keyframe_memory st)
          (g_config_memory st) (g_isPlaying st) (g_shouldStop st) b
          (g_encPos st) (parser st) (to_pc st) (bus st) (outputs st).

Definition set_g_encPos (e : list Z) (st : State) : State :=
  mkState (mem_config st) (g_buffer st) (g_keyframe_memory st)
          (g_config_memory st) (g_isPlaying st) (g_shouldStop st)
          (g_extShouldQuit st) e (parser st) (to_pc st) (bus st)
          (outputs st).

Definition set_parser (p : Decoder.Parser) (st : State) : State :=
  mkState (mem_config st) (g_buffer st) (g_keyframe_memory st)
          (g_config_memory st) (g_isPlaying st) (g_shouldStop st)
          (g_extShouldQuit st) (g_encPos st) p (to_pc st) (bus st)
          (outputs st).

Definition put_to_pc (bytes : list Z) (st : State) : State :=
  mkState (mem_config st) (g_buffer st) (g_keyframe_memory st)
          (g_config_memory st) (g_isPlaying st) (g_shouldStop st)
          (g_extShouldQuit st) (g_encPos st) (parser st)
          (to_pc st ++ bytes) (bus st) (outputs st).

Definition bus_op (op : BusOp) (st : State) : State :=
  mkState (mem_config st) (g_buffer st) (g_keyframe_memory st)
          (g_config_memory st) (g_isPlaying st) (g_shouldStop st)
          (g_extShouldQuit st) (g_encPos st) (parser st) (to_pc st)
          (bus st ++ [op]) (outputs st).

Definition io_setOutput (active : bool) (st : State) : State :=
  mkState (mem_config st) (g_buffer st) (g_keyframe_memory st)
          (g_config_memory st) (g_isPlaying st) (g_shouldStop st)
          (g_extShouldQuit st) (g_encPos st) (parser st) (to_pc st)
          (bus st) (outputs st ++ [active]).

(** [printf] goes through [pc_putc] to the host link, a line feed
    preceded by a carriage return. *)
Definition text_bytes (s : string) : list Z :=
  flat_map (fun a => let c := Z.of_N (N_of_ascii a) in
                     if c =? 10 then [13; 10] else [c])
           (list_ascii_of_string s).

Definition printf (s : string) (st : State) : State :=
  put_to_pc (text_bytes s) st.

(** *** [mem.cpp] *)

Definition mem_init (st : State) : State :=
  let cfg := g_config_memory st in
  if (active_axes cfg =? 65535) || (num_keyframes cfg >=? MAX_KEYFRAMES)
  then
    printf "No valid configuration found in EEPROM
"
      (set_mem_config
         {| num_keyframes := 0; active_axes := 4;
            enc_to_mot := enc_to_mot cfg; lookahead := lookahead cfg |} st)
  else set_mem_config cfg st.

Definition mem_readKeyframe (index : Z) (st : State) : option Keyframe :=
  g_keyframe_memory st !! Z.to_nat index.

Definition mem_saveKeyframe (index : Z) (src : Keyframe) (st : State)
  : option State :=
  if index <? MAX_KEYFRAMES
  then Some (set_g_keyframe_memory
               (<[Z.to_nat index := src]> (g_keyframe_memory st)) st)
  else None.

Definition mem_saveConfig (st : State) : State :=
  set_g_config_memory (mem_config st) st.

(** *** Buffer operations of [motion.cpp] *)

Definition motion_isPlaying (st : State) : bool := g_isPlaying st.

Definition motion_writeToBuffer (index : Z) (kf : Keyframe) (st : State)
  : State :=
  if index >=? MAX_KEYFRAMES then st
  else set_g_buffer (<[Z.to_nat index := kf]> (g_buffer st)) st.

(** [for (i = 0; i < num_keyframes; ++i) mem_saveKeyframe(i, g_buffer[i])],
    then [mem_saveConfig]. *)
Fixpoint commit_loop (n : nat) (i : Z) (st : State) : option State :=
  match n with
  | O => Some st
  | S n' =>
      match g_buffer st !! Z.to_nat i with
      | Some kf =>
          match mem_saveKeyframe (u8 i) kf st with
          | Some st' => commit_loop n' (i + 1) st'
          | None => None
          end
      | None => None
      end
  end.

Definition motion_commit (st : State) : option State :=
  match commit_loop (Z.to_nat (num_keyframes (mem_config st))) 0 st with
  | Some st' => Some (mem_saveConfig st')
  | None => None
  end.

Definition motion_stop (st : State) : State := set_g_shouldStop true st.

Definition executeOutputCommand (cmd : Z) (st : State) : State :=
  if cmd =? OC_SET then io_setOutput true st
  else if cmd =? OC_RESET then io_setOutput false st
  else st.

Section Environment.

(** The answer of the motor controller [id] to an encoder query, given
    the bus traffic so far; [None] is a failed read. *)
Variable encoder : list BusOp -> Z -> option Z.

(** The bytes found in memory that the program has not initialised. *)
Variable indeterminate : nat -> Z.

(** The playback loop proper, which runs on the timer interrupt. *)
Variable motion_runSequence : bool -> State -> option State.

Definition nt_encoderPosition (id : Z) (st : State) : State * option Z :=
  (bus_op (ReadEncoder id) st, encoder (bus st) id).

(** The loop of [motion_keyframeReached], axes [j .. j+n-1]. *)
Fixpoint keyframeReached_loop (keyframe : Keyframe) (n : nat) (j : Z)
         (max_diff : Z) (st : State) : option (State * Z) :=
  match n with
  | O => Some (st, max_diff)
  | S n' =>
      match nt_encoderPosition (j + 1) st with
      | (st', None) => keyframeReached_loop keyframe n' (j + 1) max_diff st'
      | (st', Some enc) =>
          match ticks keyframe !! Z.to_nat j with
          | Some t =>
              let diff := c_abs (s16 t - NT_POSITION_BIAS - enc) in
              keyframeReached_loop keyframe n' (j + 1)
                (if diff >? max_diff then diff else max_diff) st'
          | None => None
          end
      end
  end.

Definition motion_keyframeReached (keyframe : Keyframe) (st : State)
  : option (State * bool) :=
  let axes := active_axes (mem_config st) in
  if axes >? 255 then None
  else
    match keyframeReached_loop keyframe (Z.to_nat axes) 0 (-1) st with
    | Some (st', max_diff) =>
        Some (st', (max_diff >=? 0) && (max_diff <? 50))
    | None => None
    end.

Definition motion_isInStartPosition (st : State) : option (State * bool) :=
  match mem_readKeyframe 0 st with
  | Some start =>
      match motion_keyframeReached start st with
      | Some (st', reached) =>
          Some (if reached
                then executeOutputCommand (output_command start) st'
                else st', reached)
      | None => None
      end
  | None => None
  end.

(** [motion_feedback(motor_index)]. *)
Definition motion_feedback (motor_index : Z) (st : State) : State * Z :=
  if motor_index >=? NUM_AXES then (st, 0)
  else if g_isPlaying st
  then (st, default 0 (g_encPos st !! Z.to_nat motor_index))
  else
    match nt_encoderPosition (motor_index + 1) st with
    | (st', Some ret) => (st', ret)
    | (st', None) => (st', 0)
    end.

Fixpoint feedback_loop (n : nat) (i : Z) (positions : list Z) (st : State)
  : State * list Z :=
  match n with
  | O => (st, positions)
  | S n' =>
      let '(st', pos) := motion_feedback i st in
      feedback_loop n' (i + 1) (<[Z.to_nat i := pos]> positions) st'
  end.

(** [writeFeedbackPacket<CMD_CODE>]: positions of axes that are not
    active are whatever the stack held. *)
Definition writeFeedbackPacket (CMD_CODE : Z) (st : State) : option State :=
  let axes := active_axes (mem_config st) in
  if axes >? NUM_AXES then None
  else
    let flags := if motion_isPlaying st then FF_PLAYING else 0 in
    let uninit := map (fun k => indeterminate k) (seq 0 8) in
    let '(st', positions) := feedback_loop (Z.to_nat axes) 0 uninit st in
    let payload :=
      [u8 axes; flags] ++ concat (map (fun z => u16_bytes (u16 z)) positions) in
    Some (put_to_pc (Packet CMD_CODE payload) st').

Fixpoint singleMotion_loop (payload : list Z) (n : nat) (i : Z)
         (st : State) : State :=
  match n with
  | O => st
  | S n' =>
      let st := bus_op (SetDestination (i + 1)
                          (u16_at payload (Z.to_nat (2 * i)))) st in
      let st := bus_op (SetVelocity (i + 1)
                          (u16_at payload (Z.to_nat (16 + 2 * i)))) st in
      singleMotion_loop payload n' (i + 1) st
  end.

(** [motion_executeSingleMotion] on the [Motion] struct laid over the
    payload: [ticks] at offset 0, [velocity] at 16, [num_axes] at 32,
    [output_command] at 33. *)
Definition motion_executeSingleMotion (payload : list Z) (st : State)
  : option State :=
  let num_axes := byte_at payload 32 in
  if num_axes >? NUM_AXES then None
  else Some (executeOutputCommand (byte_at payload 33)
               (singleMotion_loop payload (Z.to_nat num_axes) 0 st)).

Definition writeAnswer (data : list Z) (st : State) : State :=
  put_to_pc data st.

(** *** [handleCommand] *)

Definition handleCommand (command : Z) (payload : list Z) (length : Z)
           (st : State) : option State :=
  if command =? CMD_INIT then
    Some (writeAnswer (SimplePacket CMD_INIT) st)
  else if command =? CMD_EXIT then
    Some (set_g_extShouldQuit true (writeAnswer (SimplePacket CMD_EXIT) st))
  else if command =? CMD_SAVE_KEYFRAME then
    if negb (length =? sizeof_SaveKeyframe) || motion_isPlaying st
    then Some st
    else
      let st := motion_writeToBuffer (byte_at payload 0)
                                     (decode_Keyframe payload 1) st in
      Some (writeAnswer (SimplePacket CMD_SAVE_KEYFRAME) st)
  else if command =? CMD_READ_KEYFRAME then
    if negb (length =? sizeof_ReadKeyframe) then Some st
    else
      match mem_readKeyframe (byte_at payload 0) st with
      | Some kf =>
          Some (writeAnswer (Packet CMD_READ_KEYFRAME (encode_Keyframe kf)) st)
      | None => None
      end
  else if command =? CMD_CONFIG then
    if motion_isPlaying st then Some st
    else if length =? sizeof_Config then
      let st := set_mem_config (decode_Config payload) st in
      match motion_isInStartPosition st with
      | Some (st, _) => Some (writeAnswer (SimplePacket CMD_CONFIG) st)
      | None => None
      end
    else if length =? 0 then
      Some (writeAnswer (Packet CMD_CONFIG (encode_Config (mem_config st))) st)
    else Some st
  else if command =? CMD_RESET then
    if decide (take 8 payload = RESET_KEY) then None else Some st
  else if command =? CMD_COMMIT then
    match motion_commit st with
    | Some st => Some (writeAnswer (SimplePacket CMD_COMMIT) st)
    | None => None
    end
  else if command =? CMD_PLAY then
    let flags := byte_at payload 0 in
    let st := writeAnswer (SimplePacket CMD_PLAY) st in
    if negb (motion_isPlaying st)
    then motion_runSequence (negb (Z.land flags PF_LOOP =? 0)) st
    else Some st
  else if command =? CMD_STOP then
    Some (writeAnswer (SimplePacket CMD_STOP) (motion_stop st))
  else if command =? CMD_MOTION then
    match motion_executeSingleMotion payload st with
    | Some st => writeFeedbackPacket CMD_MOTION st
    | None => None
    end
  else if command =? CMD_FEEDBACK then
    writeFeedbackPacket CMD_FEEDBACK st
  else Some st.

(** [cmd_input]: one byte into the decoder, dispatching a completed
    packet. *)
Definition cmd_input (c : Z) (st : State) : option (State * bool) :=
  let '(p, o) := Decoder.parser_step (parser st) c in
  let st := set_parser p st in
  match o with
  | Some pk =>
      match handleCommand (Decoder.pk_command pk) (Decoder.pk_payload pk)
                          (Decoder.pk_length pk) st with
      | Some st => Some (st, true)
      | None => None
      end
  | None => Some (st, false)
  end.

End Environment.

End Device.

(** ** The velocity controller of [motion_runSequence]

    The body of the per-axis loop of the playback loop once the look-ahead
    window ([from], [to], [duration], [delta]) is known: the velocity
    without adaption, the expected position [dest], the corrected and
    clamped velocity, and the two commands to the motor controller.  All
    arithmetic is 32-bit ([int32_t], [1000L]); [/] truncates toward zero.
    The arguments of [nt_setDestination] and [nt_setVelocity] are
    [uint16_t]. *)

Module Sequencer.
Import proto Device.

Section Control.

Variable encoder : list BusOp -> Z -> option Z.

Definition c_div (a b : Z) : Z := s32 (Z.quot a b).

(** The clamp of [speeds[j]] ("never stop completely"). *)
Definition clamp_speed (speed maxSpeed : Z) : Z :=
  if speed <? 100 then 100
  else if speed >? maxSpeed then maxSpeed
  else speed.

Definition maxSpeed_of (enc_to_mot_j : Z) : Z :=
  s32 (u32 (enc_to_mot_j * 7000) / 256).

(** One axis [j] of one pass; [speed_j] is [speeds[j]] on entry.  The
    result is the new device state and the new [speeds[j]]. *)
Definition axis_control (j : Z) (from to duration delta : Z) (speed_j : Z)
           (st : State) : option (State * Z) :=
  if duration =? 0 then None
  else
    let orig_vel := c_div (s32 (1000 * s32 (to - from))) duration in
    let cfg := mem_config st in
    if negb (lookahead cfg =? 0) then
      match nt_encoderPosition encoder (j + 1) st with
      | (st, Some encPos) =>
          match enc_to_mot cfg !! Z.to_nat j with
          | Some e2m =>
              let maxSpeed := maxSpeed_of e2m in
              let dest := s32 (from + c_div (s32 (delta * orig_vel)) 1000) in
              let vel :=
                c_abs (c_div (s32 (1000 * s32 (dest - encPos)))
                             (lookahead cfg)) in
              let vel := c_div (s32 (vel * e2m)) 256 in
              let speed := clamp_speed vel maxSpeed in
              let st := bus_op (SetDestination (j + 1)
                                  (u16 (dest + NT_POSITION_BIAS))) st in
              let st := bus_op (SetVelocity (j + 1) (u16 speed)) st in
              Some (set_g_encPos (<[Z.to_nat j := encPos]> (g_encPos st)) st,
                    speed)
          | None => None
          end
      | (st, None) => Some (st, speed_j)
      end
    else
      let st := bus_op (SetDestination (j + 1)
                          (u16 (to + NT_POSITION_BIAS))) st in
      let speed := c_abs orig_vel in
      Some (bus_op (SetVelocity (j + 1) (u16 speed)) st, speed).

(** The velocities commanded on the bus. *)
Definition commanded_velocities (ops : list BusOp) : list Z :=
  flat_map (fun op => match op with SetVelocity _ v => [v] | _ => [] end) ops.

Definition commanded_destinations (ops : list BusOp) : list Z :=
  flat_map (fun op => match op with SetDestination _ d => [d] | _ => [] end) ops.

End Control.

End Sequencer.

(** ** The mode-switch matcher of the device's [main]

    One pass of the [do ... while(com_buf_to_bot.available())] loop that
    shovels host bytes to the bus and looks for the INIT packet.  [buf] are
    the bytes the ring buffer holds during the pass; [offset] is the local
    of that name, set to zero before each pass. *)

Module Passthrough.

Definition initPacket : list Z := proto.SimplePacket proto.CMD_INIT.

Record Pass := {
  to_bus : list Z;        (* bytes put on the RS-485 bus, in order *)
  extended : bool         (* the device entered extended mode *)
}.

Fixpoint matcher (buf : list Z) (offset : nat) (sent : list Z) : Pass :=
  match buf with
  | [] => {| to_bus := sent; extended := false |}
  | c :: rest =>
      let '(offset, sent) :=
        if decide (initPacket !! offset = Some c)
        then (S offset, sent)
        else (O, sent ++ take offset initPacket ++ [c]) in
      if Nat.eqb offset (List.length initPacket)
      then {| to_bus := sent; extended := true |}
      else matcher rest offset sent
  end.

(** One iteration of the outer loop with bytes waiting. *)
Definition pass (buf : list Z) : Pass := matcher buf 0 [].


End Passthrough.

(** ** Devices, packets and bursts used in the examples *)

Module DeviceScenario.
Import proto Decoder Device Passthrough.

(** The decoder as it is after reset. *)
Definition fresh_parser : Parser :=
  {| parser_state := PS_START; command := 0; payloadLength := 0;
     payloadIdx := 0; payloadBuffer := replicate 256 0 |}.

(** The same value on all eight axes. *)
Definition axes8 (z : Z) : list Z := replicate 8 z.

Definition kf_zero : Keyframe :=
  {| duration := 0; ticks := axes8 0; output_command := 0 |}.

Definition kf_move : Keyframe :=
  {| duration := 1000; ticks := axes8 17384; output_command := OC_SET |}.

Definition cfg_one : Config :=
  {| num_keyframes := 1; active_axes := 1;
     enc_to_mot := axes8 256; lookahead := 200 |}.

Definition cfg_blank : Config :=
  {| num_keyframes := 0; active_axes := 4;
     enc_to_mot := axes8 0; lookahead := 0 |}.

(** A device in the middle of a playback whose RAM buffer holds a
    keyframe that the store does not. *)
Definition st_playing : State :=
  {| mem_config := cfg_one;
     g_buffer := replicate 128 kf_move;
     g_keyframe_memory := replicate 128 kf_zero;
     g_config_memory := cfg_blank;
     g_isPlaying := true;
     g_shouldStop := false;
     g_extShouldQuit := false;
     g_encPos := axes8 0;
     parser := fresh_parser;
     to_pc := [];
     bus := [];
     outputs := [] |}.

(** An environment: no encoder answers, memory reads as zero, and the
    playback loop returns at once. *)
Definition no_encoder : list BusOp -> Z -> option Z := fun _ _ => None.

Definition zero_memory : nat -> Z := fun _ => 0.

Definition no_playback : bool -> State -> option State := fun _ st => Some st.

(** The same device at rest, with the buffer equal to the store. *)
Definition st_idle : State :=
  {| mem_config := cfg_one;
     g_buffer := replicate 128 kf_zero;
     g_keyframe_memory := replicate 128 kf_zero;
     g_config_memory := cfg_blank;
     g_isPlaying := false;
     g_shouldStop := false;
     g_extShouldQuit := false;
     g_encPos := axes8 0;
     parser := fresh_parser;
     to_pc := [];
     bus := [];
     outputs := [] |}.

(** The payload buffer after a SAVE_KEYFRAME packet: index 200, duration
    1000, eight ticks of 17384, output SET. *)
Definition payload_index_200 : list Z :=
  200 :: encode_Keyframe kf_move ++ replicate 236 0.

(** A device that boots with the given configuration in its store. *)
Definition stored_config (n axes : Z) : Config :=
  {| num_keyframes := n; active_axes := axes;
     enc_to_mot := axes8 256; lookahead := 200 |}.

Definition boot_state (cfg : Config) : State :=
  set_g_config_memory cfg st_idle.



Definition forwarded (ps : list Pass) : list Z := flat_map to_bus ps.

(** A device with the given conversion factor on every axis and a
    look-ahead of 200 ms. *)
Definition st_with (e2m : Z) : State :=
  set_mem_config
    {| num_keyframes := 2; active_axes := 1;
       enc_to_mot := axes8 e2m; lookahead := 200 |}
    st_playing.

(** Every encoder reads [pos]. *)
Definition encoder_at (pos : Z) : list BusOp -> Z -> option Z :=
  fun _ _ => Some pos.

End DeviceScenario.

(** ** The host application

    [double] values are rationals with exact arithmetic.  [QHash<QString, T>]
    is [gmap string T]; iterating a hash is iterating [map_to_list]. *)

Module Host.

Local Open Scope Q_scope.





(** *** Joint angle to tick and back ([RobotInterface]) *)



(** *** The timeline ([KeyframePlayerItem]) *)

Record AxisInfo := {
  angle : Q;
  velocity : option Q      (* [None]: not initialised *)
}.

Record KeyframePlayerItem := {
  joints : gmap string AxisInfo;
  relativeTime : Q;
  absoluteTime : Q;
  outputCommand : Z
}.

Definition DO_IGNORE : Z := 0.
Definition DO_SET : Z := 1.

(** *** The uploader ([RobotInterface::transferKeyframes]) *)






(** *** The authoring keyframe ([Keyframe]) *)

Record Keyframe := {
  speed : Z;
  pause : Q;
  digBox : Z;                      (* [digBox->currentIndex()] *)
  jointAngles : gmap string Q
}.

Definition getPause (k : Keyframe) : Q := pause k.
Definition getSpeed (k : Keyframe) : Z := speed k.
Definition getOutputCommand (k : Keyframe) : Z := digBox k.

(** [Keyframe::distance]: the maximum norm over this keyframe's joints;
    a joint the other keyframe lacks reads as 0. *)
Definition distance (this kf : Keyframe) : Q :=
  foldl (fun distance '(key, a) =>
           let d := Qabs (a - default 0 (jointAngles kf !! key)) in
           if Qlt_le_dec distance d then d else distance)
        0 (map_to_list (jointAngles this)).

(** *** The keyframe player's build phase ([KeyframePlayer::playTheseFrames]) *)

(** [KeyframePlayerItem::setJointAngles]. *)
Definition setJointAngles (ja : gmap string Q) (js : gmap string AxisInfo)
  : gmap string AxisInfo :=
  map_fold (fun key a js =>
              <[key := {| angle := a;
                          velocity := match js !! key with
                                      | Some ax => velocity ax
                                      | None => None
                                      end |}]> js)
           js ja.

Definition new_item (ja : gmap string Q) (rel abs : Q) (cmd : Z)
  : KeyframePlayerItem :=
  {| joints := setJointAngles ja ∅; relativeTime := rel;
     absoluteTime := abs; outputCommand := cmd |}.

(** The block guarded by [if (pause > 0)]: the item that holds the
    pose of [kf] for its pause, if any. *)
Definition hold_items (kf : Keyframe) (current_abs : Q)
  : list KeyframePlayerItem :=
  let pause := getPause kf in
  if Qlt_le_dec 0 pause
  then [new_item (jointAngles kf) pause (current_abs + pause) DO_IGNORE]
  else [].

(** The loop "Build up the keyframe timeline": [keyframes] are the
    frames from index [i] on, [current_abs] is [current->absoluteTime];
    the result is the items appended behind [current].  (A speed of 0
    divides by zero: infinite in the code, 0 in [Q].) *)
Fixpoint build_timeline (speedLimit : Q) (keyframes : list Keyframe)
         (current_abs : Q) : list KeyframePlayerItem :=
  match keyframes with
  | [] => []
  | kf :: rest =>
      let pause := getPause kf in
      let hold := hold_items kf current_abs in
      let current_abs :=
        if Qlt_le_dec 0 pause then current_abs + pause else current_abs in
      match rest with
      | [] => hold
      | next :: _ =>
          let keyframeDistance := Qabs (distance kf next) in
          let time :=
            keyframeDistance
            / ((1#100) * inject_Z (getSpeed next) * speedLimit) in
          hold
            ++ new_item (jointAngles next) time (current_abs + time)
                        (getOutputCommand next)
            :: build_timeline speedLimit rest (current_abs + time)
      end
  end.

(** "Calculate needed velocities": every item but the last gets the
    velocity that reaches the next item in time.  For a joint that the
    next item lacks the code reads an angle that was never set; the
    velocity is then [None]. *)
Fixpoint set_velocities (speedLimit : Q) (items : list KeyframePlayerItem)
  : list KeyframePlayerItem :=
  match items with
  | [] => []
  | current :: rest =>
      match rest with
      | [] => [current]
      | next :: _ =>
          {| joints :=
               map_imap
                 (fun key ax =>
                    Some {| angle := angle ax;
                            velocity :=
                              match joints next !! key with
                              | Some nx =>
                                  let jointDistance := angle nx - angle ax in
                                  if Qeq_bool jointDistance 0
                                     || Qeq_bool (relativeTime next) 0
                                  then Some speedLimit
                                  else Some (Qabs (jointDistance
                                                   / relativeTime next))
                              | None => None
                              end |})
                 (joints current);
             relativeTime := relativeTime current;
             absoluteTime := absoluteTime current;
             outputCommand := outputCommand current |}
          :: set_velocities speedLimit rest
      end
  end.

(** [playTheseFrames]: the timeline from [head] on.  With fewer than two
    keyframes the old timeline stays. *)
Definition playTheseFrames (speedLimit : Q) (looped : bool)
           (old : list KeyframePlayerItem) (keyframes : list Keyframe)
  : list KeyframePlayerItem :=
  match keyframes with
  | first :: _ :: _ =>
      let head_joints :=
        match old with h :: _ => joints h | [] => ∅ end in
      let head :=
        {| joints := setJointAngles (jointAngles first) head_joints;
           relativeTime := 0; absoluteTime := 0;
           outputCommand := getOutputCommand first |} in
      let items := build_timeline speedLimit keyframes 0 in
      let last_abs :=
        match last items with Some it => absoluteTime it | None => 0 end in
      let closing :=
        if looped
        then
          let lastkf := default first (last keyframes) in
          let time :=
            Qabs (distance lastkf first)
            / ((1#100) * inject_Z (getSpeed first) * speedLimit) in
          [new_item (jointAngles first) time (last_abs + time)
                    (getOutputCommand first)]
        else [] in
      set_velocities speedLimit (head :: items ++ closing)
  | _ => old
  end.

End Host.

(** ** The keyframe text format ([Keyframe::toString], [fromString],
    [validateString])

    A [QString] is a [string]; [QRegExp::exactMatch] is membership in the
    language of the expression, decided with derivatives. *)

Module KeyframeText.
Import Host.

Local Open Scope Q_scope.

(** *** Regular expressions *)

Inductive regex :=
| Void
| Eps
| Class (p : ascii -> bool)
| Cat (r s : regex)
| Alt (r s : regex)
| Star (r : regex).

Fixpoint nullable (r : regex) : bool :=
  match r with
  | Void => false
  | Eps => true
  | Class _ => false
  | Cat r s => nullable r && nullable s
  | Alt r s => nullable r || nullable s
  | Star _ => true
  end.

Definition cat (r s : regex) : regex :=
  match r, s with
  | Void, _ => Void
  | _, Void => Void
  | Eps, _ => s
  | _, _ => Cat r s
  end.

Definition alt (r s : regex) : regex :=
  match r, s with
  | Void, _ => s
  | _, Void => r
  | _, _ => Alt r s
  end.

Fixpoint deriv (a : ascii) (r : regex) : regex :=
  match r with
  | Void => Void
  | Eps => Void
  | Class p => if p a then Eps else Void
  | Cat r s =>
      if nullable r
      then alt (cat (deriv a r) s) (deriv a s)
      else cat (deriv a r) s
  | Alt r s => alt (deriv a r) (deriv a s)
  | Star r => cat (deriv a r) (Star r)
  end.

Definition exactMatch (r : regex) (s : string) : bool :=
  nullable (fold_left (fun r a => deriv a r) (list_ascii_of_string s) r).

Definition code (a : ascii) : Z := Z.of_N (N_of_ascii a).

Definition chr (c : ascii) : regex := Class (fun a => (code a =? code c)%Z).
Fixpoint lit (cs : list ascii) : regex :=
  match cs with
  | [] => Eps
  | c :: cs => Cat (chr c) (lit cs)
  end.
Definition opt (r : regex) : regex := Alt Eps r.
Definition plus (r : regex) : regex := Cat r (Star r).

Definition is_digit (a : ascii) : bool :=
  ((48 <=? code a) && (code a <=? 57))%Z.
Definition is_space (a : ascii) : bool :=
  ((code a =? 32) || ((9 <=? code a) && (code a <=? 13)))%Z.
Definition is_word (a : ascii) : bool :=
  (is_digit a
   || ((65 <=? code a) && (code a <=? 90))
   || ((97 <=? code a) && (code a <=? 122))
   || (code a =? 95))%Z.

Definition digit : regex := Class is_digit.              (* \d *)
Definition space : regex := Class is_space.              (* \s *)
Definition name_char : regex :=                          (* [\w\(\)] *)
  Class (fun a => (is_word a || (code a =? 40) || (code a =? 41))%Z).
Definition digits_1_3 : regex :=                         (* \d{1,3} *)
  Cat digit (opt (Cat digit (opt digit))).

(** [((\s)?[\w\(\)]{1,}:-?\d{1,}(\.\d{1,})?)] *)
Definition token_rx : regex :=
  Cat (opt space)
    (Cat (plus name_char)
       (Cat (chr ":")
          (Cat (opt (chr "-"))
             (Cat (plus digit) (opt (Cat (chr ".") (plus digit))))))).

(** [^((speed:\d{1,3})?(\s)?(pause:\d{1,3})?(token)*\n?){1,}$] *)
Definition validate_rx : regex :=
  plus
    (Cat (opt (Cat (lit (list_ascii_of_string "speed:")) digits_1_3))
       (Cat (opt space)
          (Cat (opt (Cat (lit (list_ascii_of_string "pause:")) digits_1_3))
             (Cat (Star token_rx) (opt (chr "010")))))).

Definition validateString (keyframeString : string) : bool :=
  exactMatch validate_rx keyframeString.

(** *** Numbers to text *)

(** [QString::number(int)]. *)
Definition number_int (z : Z) : string := NilZero.string_of_int (Z.to_int z).

Definition digit_char (d : Z) : ascii := ascii_of_N (Z.to_N (48 + d)).

(** The [k] decimal digits of [n], most significant first. *)
Fixpoint digits_of (n : Z) (k : nat) : list ascii :=
  match k with
  | O => []
  | S k' => digits_of (n / 10) k' ++ [digit_char (n mod 10)]
  end.

Fixpoint strip_zeros_rev (cs : list ascii) : list ascii :=
  match cs with
  | c :: cs' => if (code c =? 48)%Z then strip_zeros_rev cs' else cs
  | [] => []
  end.
Definition strip_zeros (cs : list ascii) : list ascii :=
  rev (strip_zeros_rev (rev cs)).

(** The decimal exponent [x] of [a > 0]: [10^x <= a < 10^(x+1)].  The
    search is bounded by 400 steps, beyond the exponents of a [double]. *)
Fixpoint exponent_up (fuel : nat) (a : Q) (x : Z) : Z :=
  match fuel with
  | O => x
  | S f => if Qle_bool 10 a then exponent_up f (a / 10) (x + 1) else x
  end.
Fixpoint exponent_down (fuel : nat) (a : Q) (x : Z) : Z :=
  match fuel with
  | O => x
  | S f => if Qle_bool 1 a then x else exponent_down f (a * 10) (x - 1)
  end.
Definition decimal_exponent (a : Q) : Z :=
  if Qle_bool 1 a then exponent_up 400 a 0 else exponent_down 400 a 0.

Definition round_half_even (m : Q) : Z :=
  let f := Qfloor m in
  let r := m - inject_Z f in
  if Qle_bool r (1#2)
  then if Qeq_bool r (1#2) then (if Z.even f then f else f + 1)%Z else f
  else (f + 1)%Z.

Definition exponent_text (x : Z) : list ascii :=
  (if (x <? 0)%Z then "-" else "+")%char
    :: (if (Z.abs x <? 10)%Z then ["0"%char] else [])
    ++ list_ascii_of_string (number_int (Z.abs x)).

(** [QString::number(double)], that is format ['g'] with precision 6:
    six significant digits, trailing zeros removed, exponent notation
    when the decimal exponent is below -4 or at least 6. *)
Definition number_double (d : Q) : string :=
  if Qeq_bool d 0 then "0"%string
  else
    let a := Qabs d in
    let x0 := decimal_exponent a in
    let n0 := round_half_even (a * Qpower 10 (5 - x0)) in
    let '(n, x) :=
      if (n0 =? 1000000)%Z then (100000, x0 + 1)%Z else (n0, x0) in
    let all := digits_of n 6 in
    let body :=
      if ((x <? -4) || (x >=? 6))%Z then
        match strip_zeros all with
        | [] => []
        | d0 :: [] => d0 :: "e"%char :: exponent_text x
        | d0 :: ds => d0 :: "."%char :: ds ++ "e"%char :: exponent_text x
        end
      else if (x >=? 0)%Z then
        let int_part := take (Z.to_nat (x + 1)) all in
        let frac := strip_zeros (drop (Z.to_nat (x + 1)) all) in
        match frac with
        | [] => int_part
        | _ => int_part ++ "."%char :: frac
        end
      else
        "0"%char :: "."%char
          :: replicate (Z.to_nat (- x - 1)) "0"%char ++ strip_zeros all in
    string_of_list_ascii
      (if Qle_bool 0 d then body else "-"%char :: body).

(** *** Text to numbers *)

Fixpoint parse_digits (cs : list ascii) (acc : Z) : option Z :=
  match cs with
  | [] => Some acc
  | c :: cs' =>
      if is_digit c then parse_digits cs' (10 * acc + (code c - 48))%Z
      else None
  end.

Definition parse_unsigned (cs : list ascii) : option Z :=
  match cs with
  | [] => None
  | _ => parse_digits cs 0
  end.

Definition parse_signed (cs : list ascii) : option Z :=
  match cs with
  | c :: cs' =>
      if (code c =? 45)%Z then Z.opp <$> parse_unsigned cs'
      else if (code c =? 43)%Z then parse_unsigned cs'
      else parse_unsigned cs
  | [] => None
  end.

(** [QString::toInt]: 0 when the text is not an integer. *)
Definition toInt (s : string) : Z :=
  default 0%Z (parse_signed (list_ascii_of_string s)).

(** Splitting at the first character that satisfies [p]. *)
Fixpoint break_at (p : ascii -> bool) (cs : list ascii)
  : list ascii * option (list ascii) :=
  match cs with
  | [] => ([], None)
  | c :: cs' =>
      if p c then ([], Some cs')
      else let '(l, r) := break_at p cs' in (c :: l, r)
  end.

(** A decimal mantissa [digits[.digits]] as a rational. *)
Definition parse_mantissa (cs : list ascii) : option Q :=
  let '(ip, rest) := break_at (fun c => (code c =? 46)%Z) cs in
  let fp := default [] rest in
  match ip ++ fp with
  | [] => None
  | ds =>
      match parse_digits ds 0 with
      | Some n => Some (inject_Z n / Qpower 10 (Z.of_nat (List.length fp)))
      | None => None
      end
  end.

Definition parse_double (cs : list ascii) : option Q :=
  let '(neg, cs) :=
    match cs with
    | c :: cs' =>
        if (code c =? 45)%Z then (true, cs')
        else if (code c =? 43)%Z then (false, cs')
        else (false, cs)
    | [] => (false, [])
    end in
  let '(mant, ex) :=
    break_at (fun c => (code c =? 101) || (code c =? 69))%Z cs in
  match parse_mantissa mant,
        (match ex with
         | Some e => parse_signed e
         | None => Some 0%Z
         end) with
  | Some m, Some e =>
      let v := m * Qpower 10 e in Some (if neg then - v else v)
  | _, _ => None
  end.

(** [QString::toDouble]: 0 when the text is not a number. *)
Definition toDouble (s : string) : Q :=
  default 0 (parse_double (list_ascii_of_string s)).

(** *** [Keyframe::toString] *)

Definition toString (kf : Keyframe) : string :=
  ("speed:" ++ number_int (speed kf)
   ++ " pause:" ++ number_double (pause kf)
   ++ " output:" ++ number_int (digBox kf)
   ++ foldl (fun acc '(key, v) =>
               acc ++ " " ++ key ++ ":" ++ number_double v)
            "" (map_to_list (jointAngles kf))
   ++ "
")%string.

(** *** [Keyframe::fromString] *)

(** [QString::split] at the characters that satisfy [p]; [skip] drops
    the empty parts. *)
Fixpoint split_at (p : ascii -> bool) (skip : bool) (cs cur : list ascii)
  : list (list ascii) :=
  match cs with
  | [] => if skip && match cur with [] => true | _ => false end
          then [] else [rev cur]
  | c :: cs' =>
      if p c
      then (if skip && match cur with [] => true | _ => false end
            then [] else [rev cur]) ++ split_at p skip cs' []
      else split_at p skip cs' (c :: cur)
  end.

Definition set_part (kf : Keyframe) (part : list ascii) : Keyframe :=
  let partBits :=
    split_at (fun c => (code c =? 58)%Z) false part [] in
  let key := string_of_list_ascii (default [] (partBits !! 0%nat)) in
  let val := string_of_list_ascii (default [] (partBits !! 1%nat)) in
  if String.eqb key "speed" then
    {| speed := toInt val; pause := pause kf; digBox := digBox kf;
       jointAngles := jointAngles kf |}
  else if String.eqb key "pause" then
    {| speed := speed kf; pause := toDouble val; digBox := digBox kf;
       jointAngles := jointAngles kf |}
  else if String.eqb key "output" then
    {| speed := speed kf; pause := pause kf; digBox := toInt val;
       jointAngles := jointAngles kf |}
  else
    {| speed := speed kf; pause := pause kf; digBox := digBox kf;
       jointAngles := <[key := toDouble val]> (jointAngles kf) |}.

Definition fromString (keyframeString : string) (this : Keyframe)
  : Keyframe :=
  if negb (validateString keyframeString) then this
  else
    let cs := list_ascii_of_string keyframeString in
    let line := fst (break_at (fun c => (code c =? 10)%Z) cs) in
    let keyframeParts := split_at is_space true line [] in
    foldl set_part this keyframeParts.

(** A keyframe as its constructor leaves it. *)
Definition new_Keyframe : Keyframe :=
  {| speed := 50; pause := 0; digBox := 0; jointAngles := ∅ |}.

End KeyframeText.

(** ** Joints, timelines and keyframes used in the examples *)

Module HostScenario.
Import Host.

Local Open Scope Q_scope.





(** An authored keyframe with Joint1 at angle [a], at half speed. *)
Definition pose (a : Q) (pause_s : Q) (out : Z) : Keyframe :=
  {| speed := 50; pause := pause_s; digBox := out;
     jointAngles := {[ "Joint1"%string := a ]} |}.

(** A keyframe with one joint, 10 microradians from zero. *)
Definition kf_small : Keyframe :=
  {| speed := 70; pause := 3#2; digBox := DO_SET;
     jointAngles := {[ "Joint1"%string := 1#100000 ]} |}.

(** A keyframe whose numbers print in plain notation. *)
Definition kf_plain : Keyframe :=
  {| speed := 70; pause := 3#2; digBox := DO_SET;
     jointAngles := {[ "Joint(1)"%string := 1#4 ]} |}.

End HostScenario.

(** ** The ring buffer ([combuf.h])

    [CircularBuffer]: 256 bytes and two 8-bit indices.  [get] on an empty
    buffer switches the board LED off and returns the byte under the read
    index; the flag in its result says so. *)

Module RingBuffer.

Definition BUFSIZE : Z := 256.
Definition BUFSIZE_MASK : Z := BUFSIZE - 1.

Record CircularBuffer := {
  m_buf : list Z;
  m_write_idx : Z;
  m_read_idx : Z
}.

Definition put (c : Z) (b : CircularBuffer) : CircularBuffer :=
  let newidx := u8 (Z.land (m_write_idx b + 1) BUFSIZE_MASK) in
  if newidx =? m_read_idx b then b
  else {| m_buf := <[Z.to_nat (m_write_idx b) := c]> (m_buf b);
          m_write_idx := newidx;
          m_read_idx := m_read_idx b |}.

(** [putData(data, length)] for the [length] bytes [data]. *)
Definition putData (data : list Z) (b : CircularBuffer) : CircularBuffer :=
  foldl (fun b c => put c b) b data.

Definition flush (b : CircularBuffer) : CircularBuffer :=
  {| m_buf := m_buf b; m_write_idx := m_write_idx b;
     m_read_idx := m_write_idx b |}.

Definition available (b : CircularBuffer) : bool :=
  negb (m_read_idx b =? m_write_idx b).

(** The byte, the buffer afterwards, and whether the buffer was empty. *)
Definition get (b : CircularBuffer) : Z * CircularBuffer * bool :=
  let c := default 0 (m_buf b !! Z.to_nat (m_read_idx b)) in
  if negb (m_read_idx b =? m_write_idx b)
  then (c, {| m_buf := m_buf b; m_write_idx := m_write_idx b;
              m_read_idx := u8 (Z.land (m_read_idx b + 1) BUFSIZE_MASK) |},
        false)
  else (c, b, true).

(** The bytes waiting in the buffer, oldest first. *)
Definition contents (b : CircularBuffer) : list Z :=
  map (fun k => default 0
                  (m_buf b !! Z.to_nat ((m_read_idx b + Z.of_nat k) mod 256)))
      (seq 0 (Z.to_nat ((m_write_idx b - m_read_idx b) mod 256))).

(** The array has its 256 bytes and the indices are 8-bit values. *)
Definition well_formed (b : CircularBuffer) : Prop :=
  List.length (m_buf b) = 256%nat /\
  0 <= m_write_idx b < 256 /\ 0 <= m_read_idx b < 256.

End RingBuffer.

(** ** The device's input loop and boot sequence

    The inner loop of [handleCommands] ([commands.cpp]) and
    [motion_loadSequence] ([motion.cpp]). *)

Module DeviceLoop.
Import proto Device.

(** The values a packed struct can hold. *)
Definition is_u16 (z : Z) : Prop := 0 <= z < 65536.

Definition wf_Keyframe (k : Keyframe) : Prop :=
  is_u16 (duration k) /\
  List.length (ticks k) = 8%nat /\ Forall is_u16 (ticks k) /\
  0 <= output_command k < 256.

Definition wf_Config (c : Config) : Prop :=
  is_u16 (num_keyframes c) /\ is_u16 (active_axes c) /\
  List.length (enc_to_mot c) = 8%nat /\ Forall is_u16 (enc_to_mot c) /\
  is_u16 (lookahead c).

(** The two keyframe arrays have their [MAX_KEYFRAMES] entries. *)
Definition arrays_ok (st : State) : Prop :=
  List.length (g_buffer st) = 128%nat /\
  List.length (g_keyframe_memory st) = 128%nat.

Section Environment.

Variable encoder : list BusOp -> Z -> option Z.
Variable indeterminate : nat -> Z.
Variable motion_runSequence : bool -> State -> option State.

(** [while(com_buf_to_bot.available()) cmd_input(com_buf_to_bot.get())]
    for the bytes waiting. *)
Fixpoint input_bytes (bytes : list Z) (st : State) : option State :=
  match bytes with
  | [] => Some st
  | c :: rest =>
      match cmd_input encoder indeterminate motion_runSequence c st with
      | Some (st', _) => input_bytes rest st'
      | None => None
      end
  end.

End Environment.

(** [for (i = 0; i < num_keyframes; ++i) mem_readKeyframe(i, &g_buffer[i])]. *)
Fixpoint load_loop (n : nat) (i : Z) (st : State) : option State :=
  match n with
  | O => Some st
  | S n' =>
      match mem_readKeyframe (u8 i) st with
      | Some kf =>
          if i <? MAX_KEYFRAMES
          then load_loop n' (i + 1)
                 (set_g_buffer (<[Z.to_nat i := kf]> (g_buffer st)) st)
          else None
      | None => None
      end
  end.

Definition motion_loadSequence (st : State) : option State :=
  let st := mem_init st in
  load_loop (Z.to_nat (num_keyframes (mem_config st))) 0 st.

End DeviceLoop.

(** ** The host's transmit side ([RobotInterface])

    [motionIn] takes the targets from the user interface into the
    transmit buffers; [extSendConfig] builds the configuration packet for
    the device. *)

Module HostTx.
Import Host.

Local Open Scope Q_scope.









End HostTx.

(** ** The tendon controller on the motor driver ([NanoJMotorControl.java])

    The position control branch ([state == 2]) of the main loop.  Java's
    [int] has 32 bits and wraps; [>>] keeps the sign. *)

Module NanoJ.

Definition ENCODER_SHIFT : Z := 2.
Definition POSITION_BIAS : Z := 16384.

Definition asr (x n : Z) : Z := Z.shiftr x n.
Definition shl (x n : Z) : Z := s32 (Z.shiftl x n).

(** The locals of [main] that live across passes of the loop and that
    this branch writes. *)
Record Vars := {
  holdingPosition : Z;
  driveTarget : Z
}.

(** One pass in position control mode.  The arguments are what
    [GetMaxSpeed2], [GetMaxSpeed], [GetEncoderPosition] and
    [GetDemandPosition] return; [driveTarget] of the result is what
    [SetTargetPos] gets. *)
Definition position_control (maxSpeed2 maxSpeed encoderActualPosition
                             motorActualPosition : Z) (v : Vars) : Vars :=
  let encoderTargetPosition := s32 (maxSpeed2 - POSITION_BIAS) in
  let targetSpeed := maxSpeed in
  let delta :=
    asr (s32 (encoderTargetPosition - encoderActualPosition)) ENCODER_SHIFT in
  let deltaAbs := if delta >? 0 then delta else s32 (- delta) in
  let farShift := Z.land (asr (s32 (asr targetSpeed 5 - deltaAbs)) 31) 1 in
  let v :=
    if deltaAbs <? 3 then
      if (holdingPosition v =? 0) && (deltaAbs <? 2)
      then {| holdingPosition := 1;
              driveTarget := if delta <? 0 then s32 (motorActualPosition - 4)
                             else motorActualPosition |}
      else v
    else {| holdingPosition := 0; driveTarget := driveTarget v |} in
  if holdingPosition v =? 0 then
    let driveTarget := shl delta farShift in
    let driveTarget :=
      if (driveTarget >? 0) && (driveTarget <? 5) then 5
      else if (driveTarget <? 0) && (driveTarget >? -5) then -5
      else driveTarget in
    {| holdingPosition := 0;
       driveTarget := s32 (driveTarget + motorActualPosition) |}
  else v.

(** The readings stay clear of the ends of [int]. *)
Definition readings_in_range (maxSpeed2 maxSpeed enc mot : Z) : Prop :=
  0 <= maxSpeed2 < 65536 /\ 0 <= maxSpeed < 2147483648 /\
  -32768 <= enc < 32768 /\ -1073741824 <= mot < 1073741824.

End NanoJ.

(** ** Answers of the motor controllers ([nanotec.cpp])

    [readResponse] collects an answer up to its carriage return.  [avail]
    are the bytes that arrive before the wait for the next byte times
    out; the result is the count returned, the destination array and the
    bytes left waiting.  [None] is a write outside the array. *)

Module Nanotec.

(** [dest[i] = c] on an array of [char]. *)
Definition array_set (dest : list Z) (i : Z) (c : Z) : option (list Z) :=
  if (0 <=? i) && (i <? Z.of_nat (List.length dest))
  then Some (<[Z.to_nat i := c]> dest)
  else None.

(** The [while(1)] loop of [readResponse], for a [dest] that is not
    null; [cnt] is a [uint8_t]. *)
Fixpoint readResponse_loop (avail : list Z) (max_len : Z) (cnt : Z)
         (dest : list Z) : option (Z * list Z * list Z) :=
  match avail with
  | [] => Some (0, dest, [])
  | c :: rest =>
      if c =? 13 then
        if cnt <? max_len - 1 then
          match array_set dest cnt 0 with
          | Some d => Some (cnt, d, rest)
          | None => None
          end
        else Some (cnt, dest, rest)
      else
        match (if cnt <? max_len - 1 then array_set dest cnt c
               else Some dest) with
        | Some d => readResponse_loop rest max_len (u8 (cnt + 1)) d
        | None => None
        end
  end.

Definition readResponse (avail : list Z) (max_len : Z) (dest : list Z)
  : option (Z * list Z * list Z) :=
  match array_set dest (max_len - 1) 0 with
  | Some d => readResponse_loop avail max_len 0 d
  | None => None
  end.

(** [strncmp(a, b, n) == 0] on arrays that hold the two strings. *)
Fixpoint strncmp_equal (a b : list Z) (n : nat) : option bool :=
  match n with
  | O => Some true
  | S n' =>
      match a, b with
      | x :: a', y :: b' =>
          if x =? y
          then if x =? 0 then Some true else strncmp_equal a' b' n'
          else Some false
      | _, _ => None
      end
  end.

(** [isResponse(cmp)]: [cmp] is the expected text without its
    terminator, [respbuf] what the local array of 20 bytes holds on
    entry. *)
Definition isResponse (avail : list Z) (cmp : list Z) (respbuf : list Z)
  : option (bool * list Z) :=
  match readResponse avail 20 respbuf with
  | Some (count, buf, rest) =>
      if count <? Z.of_nat (List.length cmp) then Some (false, rest)
      else
        match strncmp_equal (cmp ++ [0]) buf (List.length cmp) with
        | Some r => Some (r, rest)
        | None => None
        end
  | None => None
  end.

End Nanotec.

(** ** Further devices, buffers and motions used in the examples *)

Module CoverageScenario.
Import proto Device DeviceScenario.

(** A ring buffer as constructed, and one that is full. *)
Definition rb_empty : RingBuffer.CircularBuffer :=
  {| RingBuffer.m_buf := replicate 256 0;
     RingBuffer.m_write_idx := 0; RingBuffer.m_read_idx := 0 |}.

Definition rb_two : RingBuffer.CircularBuffer :=
  {| RingBuffer.m_buf := [7; 9] ++ replicate 254 0;
     RingBuffer.m_write_idx := 2; RingBuffer.m_read_idx := 0 |}.

(** A device at rest whose store holds other keyframes than its buffer. *)
Definition st_edited : State :=
  set_g_buffer (replicate 128 kf_move) st_idle.

(** A configuration for three axes and 200 keyframes. *)
Definition cfg_large : Config :=
  {| num_keyframes := 200; active_axes := 3;
     enc_to_mot := axes8 256; lookahead := 200 |}.

(** Encoders that read 1000 ticks on axis 1 and give no answer on the
    others. *)
Definition first_axis_at_1000 : Z -> option Z :=
  fun id => if id =? 1 then Some 1000 else None.

Definition kf_at_1010 : Keyframe :=
  {| duration := 0; ticks := axes8 (1010 + NT_POSITION_BIAS);
     output_command := 0 |}.

End CoverageScenario.

Module HostCoverageScenario.
Import Host HostTx.
Local Open Scope Q_scope.




(** A motion of three keyframes over Joint1, the second with a pause. *)
Definition motion_three : list Keyframe :=
  [HostScenario.pose 0 0 0; HostScenario.pose 1 (1#2) 1; HostScenario.pose 0 0 2].

End HostCoverageScenario.

(** ** Invariants and measures used in the statements *)

Module Invariants.

(** While a packet is being read the command code is a known one. *)
Definition known_command (p : Decoder.Parser) : Prop :=
  match Decoder.parser_state p with
  | Decoder.PS_LENGTH | Decoder.PS_PAYLOAD | Decoder.PS_CHECKSUM
  | Decoder.PS_END =>
      Decoder.command p < proto.CMD_COUNT
  | _ => True
  end.

(** [st'] is [st] with more traffic on the motor bus. *)
Definition bus_extended (st st' : Device.State) : Prop :=
  exists ops,
    st' = Device.mkState
            (Device.mem_config st) (Device.g_buffer st)
            (Device.g_keyframe_memory st) (Device.g_config_memory st)
            (Device.g_isPlaying st) (Device.g_shouldStop st)
            (Device.g_extShouldQuit st) (Device.g_encPos st)
            (Device.parser st) (Device.to_pc st)
            (Device.bus st ++ ops) (Device.outputs st).

(** The keyframes of a motion name the same joints, as the editor makes
    them. *)
Definition same_joints (keyframes : list Host.Keyframe) : Prop :=
  forall k1 k2, k1 ∈ keyframes -> k2 ∈ keyframes ->
    forall key, is_Some (Host.jointAngles k1 !! key) <->
                is_Some (Host.jointAngles k2 !! key).


(** The number of keyframes with a pause. *)
Fixpoint count_holds (keyframes : list Host.Keyframe) : nat :=
  match keyframes with
  | [] => 0
  | kf :: rest =>
      (if Qlt_le_dec 0 (Host.getPause kf) then 1 else 0) + count_holds rest
  end.

(** Every item's absolute time is that of the item before it plus its
    own relative time; [before] is the time in front of the first. *)
Fixpoint chained (before : Q) (items : list Host.KeyframePlayerItem) : Prop :=
  match items with
  | [] => True
  | it :: rest =>
      Host.absoluteTime it = (before + Host.relativeTime it)%Q /\
      chained (Host.absoluteTime it) rest
  end.

End Invariants.

(** * Properties *)

(** ** Fixed-width integers *)

Lemma u8_range z : 0 <= u8 z < 256.
Proof. unfold u8. apply Z.mod_pos_bound. lia. Qed.

Lemma u8_id z : 0 <= z < 256 -> u8 z = z.
Proof. intros H. unfold u8. apply Z.mod_small. exact H. Qed.

Lemma u16_id z : 0 <= z < 65536 -> u16 z = z.
Proof. intros H. unfold u16. apply Z.mod_small. exact H. Qed.

(** ** The packet decoder *)

Module DecoderFacts.
Import Decoder DeviceScenario.

Lemma feed_app p a b :
  feed p (a ++ b) =
    let '(p1, o1) := feed p a in
    let '(p2, o2) := feed p1 b in (p2, o1 ++ o2).
Proof.
  revert p. induction a as [|c a IH]; intros p; simpl.
  - destruct (feed p b); reflexivity.
  - destruct (parser_step p c) as [p1 o]. rewrite IH.
    destruct (feed p1 a) as [p2 o1]. destruct (feed p2 b) as [p3 o2].
    destruct o; reflexivity.
Qed.

(** The payload phase: the bytes land in the buffer behind the ones
    already stored, and the decoder waits for the checksum. *)
Lemma feed_payload rest : forall p,
  parser_state p = PS_PAYLOAD ->
  rest <> [] ->
  0 <= payloadIdx p ->
  payloadIdx p + Z.of_nat (List.length rest) = payloadLength p ->
  payloadLength p <= 255 ->
  List.length (payloadBuffer p) = 256%nat ->
  exists p',
    feed p rest = (p', []) /\
    parser_state p' = PS_CHECKSUM /\
    command p' = command p /\
    payloadLength p' = payloadLength p /\
    List.length (payloadBuffer p') = 256%nat /\
    take (Z.to_nat (payloadLength p)) (payloadBuffer p') =
      take (Z.to_nat (payloadIdx p)) (payloadBuffer p) ++ rest.
Proof.
  induction rest as [|c rest IH]; intros p Hst Hne Hidx Hlen HL Hbuf.
  - congruence.
  - assert (Hu : u8 (payloadIdx p + 1) = payloadIdx p + 1).
    { apply u8_id. simpl List.length in Hlen. lia. }
    assert (Hlk : <[Z.to_nat (payloadIdx p) := c]> (payloadBuffer p)
                    !! Z.to_nat (payloadIdx p) = Some c).
    { apply list_lookup_insert_eq. simpl List.length in Hlen. lia. }
    assert (Htk : take (S (Z.to_nat (payloadIdx p)))
                    (<[Z.to_nat (payloadIdx p) := c]> (payloadBuffer p)) =
                  take (Z.to_nat (payloadIdx p)) (payloadBuffer p) ++ [c]).
    { rewrite (take_S_r _ _ c Hlk). rewrite take_insert_ge by lia. reflexivity. }
    destruct rest as [|c' rest].
    + simpl in Hlen. simpl. unfold parser_step. rewrite Hst. rewrite Hu.
      replace (payloadIdx p + 1 =? payloadLength p) with true
        by (symmetry; apply Z.eqb_eq; lia).
      eexists. split; [reflexivity|]. simpl.
      repeat split; try reflexivity.
      * rewrite length_insert. exact Hbuf.
      * replace (Z.to_nat (payloadLength p)) with (S (Z.to_nat (payloadIdx p)))
          by lia.
        exact Htk.
    + change (feed p (c :: c' :: rest)) with
        (let '(p1, o) := parser_step p c in
         let '(p2, out) := feed p1 (c' :: rest) in
         (p2, match o with Some pk => pk :: out | None => out end)).
      unfold parser_step at 1. rewrite Hst. rewrite Hu.
      replace (payloadIdx p + 1 =? payloadLength p) with false
        by (symmetry; apply Z.eqb_neq; simpl List.length in Hlen; lia).
      set (p1 := {| parser_state := PS_PAYLOAD; command := command p;
                    payloadLength := payloadLength p;
                    payloadIdx := payloadIdx p + 1;
                    payloadBuffer :=
                      <[Z.to_nat (payloadIdx p) := c]> (payloadBuffer p) |}).
      destruct (IH p1) as (p' & Hf & Hs & Hc & Hl & Hb & Ht).
      * reflexivity.
      * discriminate.
      * simpl. lia.
      * simpl. simpl List.length in Hlen. lia.
      * exact HL.
      * simpl. rewrite length_insert. exact Hbuf.
      * exists p'. rewrite Hf. simpl in *.
        repeat split; try assumption.
        rewrite Ht. replace (Z.to_nat (payloadIdx p + 1))
          with (S (Z.to_nat (payloadIdx p))) by lia.
        rewrite Htk. rewrite <- app_assoc. reflexivity.
Qed.

(** The decoder's checksum over the buffered payload is the sender's. *)
Lemma checksum_agrees c payload :
  0 <= c < proto.CMD_COUNT ->
  (List.length payload <= 255)%nat ->
  proto.packetChecksum (proto.mkHeader c (Z.of_nat (List.length payload)))
                       (Some payload) =
  u8 (Z.lnot (fold_left (fun acc b => u8 (acc + b)) payload
                (u8 (proto.VERSION + c + Z.of_nat (List.length payload))))).
Proof.
  intros Hc Hl. unfold proto.packetChecksum, proto.mkHeader. simpl.
  unfold proto.CMD_COUNT in Hc.
  rewrite (u8_id c) by lia.
  rewrite (u8_id (Z.of_nat (List.length payload))) by lia.
  rewrite Nat2Z.id. rewrite firstn_all.
  replace (c + proto.VERSION + Z.of_nat (List.length payload))
    with (proto.VERSION + c + Z.of_nat (List.length payload)) by lia.
  reflexivity.
Qed.

Lemma feed_cons_None p c p1 rest :
  parser_step p c = (p1, None) -> feed p (c :: rest) = feed p1 rest.
Proof.
  intros H. cbn [feed]. rewrite H. destruct (feed p1 rest). reflexivity.
Qed.

(** The four header bytes take the decoder from START to the payload
    (or, for an empty payload, the checksum) state. *)
Lemma feed_header p c L tail :
  parser_state p = PS_START ->
  0 <= c < proto.CMD_COUNT ->
  feed p (255 :: proto.VERSION :: c :: L :: tail) =
  feed {| parser_state := if L =? 0 then PS_CHECKSUM else PS_PAYLOAD;
          command := c; payloadLength := L; payloadIdx := 0;
          payloadBuffer := payloadBuffer p |} tail.
Proof.
  intros Hst Hc. destruct p as [st cm pl pi pb]. simpl in Hst. subst st.
  rewrite (feed_cons_None _ _
    {| parser_state := PS_VERSION; command := cm; payloadLength := pl;
       payloadIdx := 0; payloadBuffer := pb |}) by reflexivity.
  rewrite (feed_cons_None _ _
    {| parser_state := PS_COMMAND; command := cm; payloadLength := pl;
       payloadIdx := 0; payloadBuffer := pb |}) by reflexivity.
  rewrite (feed_cons_None _ _
    {| parser_state := PS_LENGTH; command := c; payloadLength := pl;
       payloadIdx := 0; payloadBuffer := pb |}).
  2:{ unfold parser_step. cbn [parser_state].
      replace (c <? proto.CMD_COUNT) with true
        by (symmetry; apply Z.ltb_lt; lia).
      reflexivity. }
  rewrite (feed_cons_None _ _
    {| parser_state := if L =? 0 then PS_CHECKSUM else PS_PAYLOAD;
       command := c; payloadLength := L;
       payloadIdx := 0; payloadBuffer := pb |}) by reflexivity.
  reflexivity.
Qed.

(** A matching checksum followed by the terminator hands the packet over. *)
Lemma feed_trailer p cs :
  parser_state p = PS_CHECKSUM ->
  cs = u8 (Z.lnot (fold_left (fun acc b => u8 (acc + b))
                     (take (Z.to_nat (payloadLength p)) (payloadBuffer p))
                     (u8 (proto.VERSION + command p + payloadLength p)))) ->
  feed p [cs; 13] =
  (set_state p PS_START,
   [{| pk_command := command p; pk_payload := payloadBuffer p;
       pk_length := payloadLength p |}]).
Proof.
  intros Hst Hcs. destruct p as [st cm pl pi pb]. simpl in Hst. subst st.
  cbn [command payloadLength payloadBuffer payloadIdx] in Hcs.
  rewrite (feed_cons_None _ _
    {| parser_state := PS_END; command := cm; payloadLength := pl;
       payloadIdx := pi; payloadBuffer := pb |}).
  2:{ unfold parser_step. cbn [parser_state command payloadLength payloadBuffer].
      rewrite <- Hcs. rewrite Z.eqb_refl. reflexivity. }
  reflexivity.
Qed.

(** C2. Encoding a packet with a command code below [CMD_COUNT] and a
    payload of at most 255 bytes as start byte, version, command, length,
    payload, checksum and terminator, and feeding these bytes to the
    decoder in its START state, hands over exactly one packet, whose
    command, length and payload bytes are the original ones; the decoder
    is back in START. *)
Theorem decode_encode_roundtrip (p : Parser) (c : Z) (payload : list Z) :
  parser_state p = PS_START ->
  List.length (payloadBuffer p) = 256%nat ->
  0 <= c < proto.CMD_COUNT ->
  (List.length payload <= 255)%nat ->
  exists p' pk,
    feed p (encode c payload) = (p', [pk]) /\
    parser_state p' = PS_START /\
    pk_command pk = c /\
    pk_length pk = Z.of_nat (List.length payload) /\
    take (List.length payload) (pk_payload pk) = payload.
Proof.
  intros Hst Hbuf Hc Hl.
  pose proof (checksum_agrees c payload Hc Hl) as Hcs.
  unfold encode, proto.Packet.
  set (cs := proto.packetChecksum _ _) in *.
  unfold proto.header_bytes, proto.mkHeader.
  cbn [proto.start proto.version proto.command proto.length].
  rewrite (u8_id c) by (unfold proto.CMD_COUNT in Hc; lia).
  rewrite (u8_id (Z.of_nat (List.length payload))) by lia.
  set (L := Z.of_nat (List.length payload)) in *.
  cbn [app]. rewrite (feed_header p c L _ Hst Hc).
  destruct (Z.eqb_spec L 0) as [HL0|HL0].
  - (* empty payload *)
    assert (payload = []) by (destruct payload; [reflexivity|simpl in L; lia]).
    subst payload. cbn [app].
    rewrite (feed_trailer _ cs).
    + eexists. eexists. split; [reflexivity|].
      cbn. repeat split; reflexivity.
    + reflexivity.
    + cbn [payloadLength command payloadBuffer]. rewrite HL0.
      rewrite Hcs. subst L. reflexivity.
  - (* non-empty payload *)
    set (p0 := {| parser_state := PS_PAYLOAD; command := c;
                  payloadLength := L; payloadIdx := 0;
                  payloadBuffer := payloadBuffer p |}).
    rewrite feed_app.
    destruct (feed_payload payload p0) as (p1 & Hf & Hs & Hcm & Hpl & Hb & Ht).
    + reflexivity.
    + intros ->. apply HL0. reflexivity.
    + simpl. lia.
    + simpl. subst L. lia.
    + simpl. subst L. lia.
    + exact Hbuf.
    + rewrite Hf. simpl in Hcm, Hpl, Ht.
      rewrite (feed_trailer p1 cs Hs).
      * eexists. eexists. split; [reflexivity|].
        cbn [parser_state set_state pk_command pk_length pk_payload].
        repeat split; try assumption.
        replace (List.length payload) with (Z.to_nat L) by (subst L; lia).
        exact Ht.
      * rewrite Hcm, Hpl, Ht. exact Hcs.
Qed.

Lemma decode_encode_roundtrip_witness :
  exists p' pk,
    feed fresh_parser (encode proto.CMD_PLAY [1]) = (p', [pk]) /\
    parser_state p' = PS_START /\
    pk_command pk = proto.CMD_PLAY /\
    pk_length pk = 1 /\
    take 1 (pk_payload pk) = [1].
Proof.
  apply (decode_encode_roundtrip fresh_parser proto.CMD_PLAY [1]).
  - reflexivity.
  - reflexivity.
  - unfold proto.CMD_PLAY, proto.CMD_COUNT. lia.
  - simpl. lia.
Defined.

End DecoderFacts.

Module DeviceFacts.
Import proto Device DeviceScenario.

Section Dispatcher.

Variable encoder : list BusOp -> Z -> option Z.
Variable indeterminate : nat -> Z.
Variable motion_runSequence : bool -> State -> option State.

Lemma save_keyframe_playing payload length st :
  g_isPlaying st = true ->
  handleCommand encoder indeterminate motion_runSequence
                CMD_SAVE_KEYFRAME payload length st = Some st.
Proof.
  intros Hp. unfold handleCommand, motion_isPlaying.
  change (CMD_SAVE_KEYFRAME =? CMD_INIT) with false.
  change (CMD_SAVE_KEYFRAME =? CMD_EXIT) with false.
  change (CMD_SAVE_KEYFRAME =? CMD_SAVE_KEYFRAME) with true.
  cbv iota. rewrite Hp. rewrite orb_true_r. reflexivity.
Qed.

Lemma config_playing payload length st :
  g_isPlaying st = true ->
  handleCommand encoder indeterminate motion_runSequence
                CMD_CONFIG payload length st = Some st.
Proof.
  intros Hp. unfold handleCommand, motion_isPlaying.
  change (CMD_CONFIG =? CMD_INIT) with false.
  change (CMD_CONFIG =? CMD_EXIT) with false.
  change (CMD_CONFIG =? CMD_SAVE_KEYFRAME) with false.
  change (CMD_CONFIG =? CMD_READ_KEYFRAME) with false.
  change (CMD_CONFIG =? CMD_CONFIG) with true.
  cbv iota. rewrite Hp. reflexivity.
Qed.

(** What [SAVE_KEYFRAME] does when it is accepted. *)
Lemma save_keyframe_idle payload st :
  g_isPlaying st = false ->
  handleCommand encoder indeterminate motion_runSequence
                CMD_SAVE_KEYFRAME payload sizeof_SaveKeyframe st =
  Some (writeAnswer (SimplePacket CMD_SAVE_KEYFRAME)
          (motion_writeToBuffer (byte_at payload 0)
                                (decode_Keyframe payload 1) st)).
Proof.
  intros Hp. unfold handleCommand, motion_isPlaying.
  change (CMD_SAVE_KEYFRAME =? CMD_INIT) with false.
  change (CMD_SAVE_KEYFRAME =? CMD_EXIT) with false.
  change (CMD_SAVE_KEYFRAME =? CMD_SAVE_KEYFRAME) with true.
  cbv iota. rewrite Hp. rewrite Z.eqb_refl. reflexivity.
Qed.

End Dispatcher.

(** C1, at the failing input. A COMMIT packet that arrives while the
    sequencer is playing is carried out instead of being ignored: the
    store takes the keyframe and the configuration from RAM, and the
    acknowledgement is sent. *)
Lemma commit_while_playing_is_executed :
  g_isPlaying st_playing = true /\
  exists st',
    handleCommand no_encoder zero_memory no_playback
                  CMD_COMMIT [] 0 st_playing = Some st' /\
    g_keyframe_memory st' <> g_keyframe_memory st_playing /\
    g_config_memory st' <> g_config_memory st_playing /\
    to_pc st_playing = [] /\
    to_pc st' = [255; 10; 6; 0; 239; 13].
Proof.
  split; [reflexivity|].
  eexists. split; [vm_compute; reflexivity|].
  repeat split; try discriminate; reflexivity.
Qed.

(** X5. A CONFIG or SAVE_KEYFRAME packet that arrives while the sequencer is
    playing changes nothing on the device, so neither the configuration
    in RAM, nor the RAM keyframe buffer, nor the store, and no reply is
    queued: the dispatcher returns with the state it found. *)
Theorem config_and_save_ignored_while_playing
        (encoder : list BusOp -> Z -> option Z)
        (indeterminate : nat -> Z)
        (motion_runSequence : bool -> State -> option State)
        (command : Z) (payload : list Z) (length : Z) (st : State) :
  g_isPlaying st = true ->
  command = CMD_CONFIG \/ command = CMD_SAVE_KEYFRAME ->
  handleCommand encoder indeterminate motion_runSequence
                command payload length st = Some st.
Proof.
  intros Hp [-> | ->].
  - apply config_playing. exact Hp.
  - apply save_keyframe_playing. exact Hp.
Qed.

Lemma config_and_save_ignored_while_playing_witness :
  handleCommand no_encoder zero_memory no_playback
                CMD_SAVE_KEYFRAME (replicate 256 1) 20 st_playing
  = Some st_playing.
Proof.
  apply (config_and_save_ignored_while_playing
           no_encoder zero_memory no_playback
           CMD_SAVE_KEYFRAME (replicate 256 1) 20 st_playing).
  - reflexivity.
  - right. reflexivity.
Defined.

(** C10. A SAVE_KEYFRAME packet of the right size that arrives while the
    sequencer is not playing and carries an index of 128 or more leaves
    the RAM keyframe buffer as it was, and the device still queues the
    acknowledgement; a packet with any other index, stored or not, is
    answered with the same bytes. *)
Theorem save_keyframe_out_of_range_acknowledged
        (encoder : list BusOp -> Z -> option Z)
        (indeterminate : nat -> Z)
        (motion_runSequence : bool -> State -> option State)
        (payload : list Z) (st : State) :
  g_isPlaying st = false ->
  MAX_KEYFRAMES <= byte_at payload 0 ->
  exists st',
    handleCommand encoder indeterminate motion_runSequence
                  CMD_SAVE_KEYFRAME payload sizeof_SaveKeyframe st = Some st' /\
    g_buffer st' = g_buffer st /\
    to_pc st' = to_pc st ++ SimplePacket CMD_SAVE_KEYFRAME /\
    forall payload2, exists st2,
      handleCommand encoder indeterminate motion_runSequence
                    CMD_SAVE_KEYFRAME payload2 sizeof_SaveKeyframe st = Some st2 /\
      to_pc st2 = to_pc st'.
Proof.
  intros Hp Hidx.
  rewrite save_keyframe_idle by exact Hp.
  eexists. split; [reflexivity|].
  unfold motion_writeToBuffer.
  replace (byte_at payload 0 >=? MAX_KEYFRAMES) with true
    by (symmetry; apply Z.geb_le; exact Hidx).
  repeat split.
  intros payload2. rewrite save_keyframe_idle by exact Hp.
  eexists. split; [reflexivity|].
  unfold motion_writeToBuffer.
  destruct (byte_at payload2 0 >=? MAX_KEYFRAMES); reflexivity.
Qed.

Lemma save_keyframe_out_of_range_acknowledged_witness :
  exists st',
    handleCommand no_encoder zero_memory no_playback
                  CMD_SAVE_KEYFRAME payload_index_200 sizeof_SaveKeyframe
                  st_idle = Some st' /\
    g_buffer st' = g_buffer st_idle /\
    to_pc st' = to_pc st_idle ++ SimplePacket CMD_SAVE_KEYFRAME /\
    forall payload2, exists st2,
      handleCommand no_encoder zero_memory no_playback
                    CMD_SAVE_KEYFRAME payload2 sizeof_SaveKeyframe st_idle
      = Some st2 /\
      to_pc st2 = to_pc st'.
Proof.
  apply (save_keyframe_out_of_range_acknowledged
           no_encoder zero_memory no_playback payload_index_200 st_idle).
  - reflexivity.
  - vm_compute. discriminate.
Defined.

(** A keyframe with an index below 128 does reach the buffer. *)
Lemma save_keyframe_in_range_stored :
  exists st',
    handleCommand no_encoder zero_memory no_playback
                  CMD_SAVE_KEYFRAME (5 :: encode_Keyframe kf_move ++ replicate 236 0)
                  sizeof_SaveKeyframe st_idle = Some st' /\
    g_buffer st' !! 5%nat = Some kf_move /\
    to_pc st' = SimplePacket CMD_SAVE_KEYFRAME.
Proof.
  eexists. split; [vm_compute; reflexivity|]. split; reflexivity.
Qed.

End DeviceFacts.

Module MemFacts.
Import proto Device DeviceScenario.

(** C7, counterexample. A stored configuration with 128 keyframes (and
    four active axes) does not pass the check at boot: the device comes
    up with no keyframes. *)
Lemma max_keyframes_rejected_at_boot :
  num_keyframes (mem_config (mem_init (boot_state (stored_config 128 4)))) = 0 /\
  active_axes (mem_config (mem_init (boot_state (stored_config 128 4)))) = 4 /\
  mem_config (mem_init (boot_state (stored_config 128 4)))
    <> stored_config 128 4.
Proof.
  repeat split; try reflexivity. vm_compute. discriminate.
Qed.

(** C7, amended. The check at boot accepts a stored configuration whose
    number of keyframes is below [MAX_KEYFRAMES], 127 at most, provided
    the axis count is not the erased value 0xFFFF: it becomes the RAM
    configuration as stored.  A count of [MAX_KEYFRAMES] or more, so 128
    as well as 129, is rejected: the device takes 4 active axes and 0
    keyframes. *)
Theorem boot_check_bound (st : State) :
  (num_keyframes (g_config_memory st) < MAX_KEYFRAMES ->
   active_axes (g_config_memory st) <> 65535 ->
   mem_config (mem_init st) = g_config_memory st) /\
  (MAX_KEYFRAMES <= num_keyframes (g_config_memory st) ->
   num_keyframes (mem_config (mem_init st)) = 0 /\
   active_axes (mem_config (mem_init st)) = 4).
Proof.
  unfold mem_init. split.
  - intros Hn Ha.
    replace (active_axes (g_config_memory st) =? 65535) with false
      by (symmetry; apply Z.eqb_neq; exact Ha).
    replace (num_keyframes (g_config_memory st) >=? MAX_KEYFRAMES) with false
      by (symmetry; rewrite Z.geb_leb; apply Z.leb_gt; exact Hn).
    reflexivity.
  - intros Hn.
    replace (num_keyframes (g_config_memory st) >=? MAX_KEYFRAMES) with true
      by (symmetry; apply Z.geb_le; exact Hn).
    rewrite orb_true_r. split; reflexivity.
Qed.

Lemma boot_check_bound_witness :
  mem_config (mem_init (boot_state (stored_config 127 4))) = stored_config 127 4 /\
  num_keyframes (mem_config (mem_init (boot_state (stored_config 129 4)))) = 0 /\
  active_axes (mem_config (mem_init (boot_state (stored_config 129 4)))) = 4.
Proof.
  split.
  - apply (proj1 (boot_check_bound (boot_state (stored_config 127 4)))).
    + vm_compute. reflexivity.
    + vm_compute. discriminate.
  - apply (proj2 (boot_check_bound (boot_state (stored_config 129 4)))).
    vm_compute. discriminate.
Defined.

End MemFacts.

Module PassthroughFacts.
Import Passthrough DeviceScenario.

(** The INIT packet the matcher compares with. *)
Lemma initPacket_bytes : initPacket = [255; 10; 0; 0; 245; 13].
Proof. reflexivity. Qed.



Lemma matcher_mismatch offset c rest sent :
  initPacket !! offset <> Some c ->
  matcher (c :: rest) offset sent =
  matcher rest 0 (sent ++ take offset initPacket ++ [c]).
Proof.
  intros H. cbn [matcher]. rewrite decide_False by exact H. reflexivity.
Qed.

Lemma matcher_match offset c rest sent :
  initPacket !! offset = Some c ->
  (S offset < 6)%nat ->
  matcher (c :: rest) offset sent = matcher rest (S offset) sent.
Proof.
  intros H Hlt. cbn [matcher]. rewrite decide_True by exact H.
  replace (Nat.eqb (S offset) (List.length initPacket)) with false.
  - reflexivity.
  - symmetry. apply Nat.eqb_neq. rewrite initPacket_bytes. simpl. lia.
Qed.

(** A proper prefix of the INIT packet only advances [offset]. *)
Lemma matcher_prefix k : forall offset rest sent,
  (offset + k < 6)%nat ->
  matcher (take k (drop offset initPacket) ++ rest) offset sent =
  matcher rest (offset + k) sent.
Proof.
  induction k as [|k IH]; intros offset rest sent Hlt.
  - rewrite Nat.add_0_r. reflexivity.
  - destruct (initPacket !! offset) as [b|] eqn:Hb.
    + rewrite (drop_S _ _ _ Hb). cbn [take firstn app].
      rewrite (matcher_match offset b _ _ Hb) by lia.
      rewrite IH by lia. f_equal. lia.
    + apply lookup_ge_None in Hb. rewrite initPacket_bytes in Hb.
      simpl in Hb. lia.
Qed.

(** X20. Replay: a partial match that a byte breaks is put on the bus in
    front of that byte. *)
Lemma partial_match_replayed (k : nat) (c : Z) :
  (k < 6)%nat ->
  initPacket !! k <> Some c ->
  pass (take k initPacket ++ [c]) =
    {| to_bus := take k initPacket ++ [c]; extended := false |}.
Proof.
  intros Hk Hc. unfold pass.
  change (take k initPacket) with (take k (drop 0 initPacket)) at 1.
  rewrite matcher_prefix by lia. cbn [Nat.add].
  rewrite matcher_mismatch by exact Hc. reflexivity.
Qed.

End PassthroughFacts.

Module SequencerFacts.
Import proto Device Sequencer DeviceScenario.

Lemma maxSpeed_of_exact e2m :
  0 <= e2m <= 65535 -> maxSpeed_of e2m = e2m * 7000 / 256.
Proof.
  intros H. unfold maxSpeed_of, u32, s32.
  rewrite (Z.mod_small (e2m * 7000)) by lia.
  assert (0 <= e2m * 7000 / 256 < 1791973).
  { split.
    - apply Z.div_pos; lia.
    - apply Z.div_lt_upper_bound; lia. }
  rewrite Z.mod_small by lia. lia.
Qed.

Lemma clamp_speed_range speed maxSpeed :
  100 <= maxSpeed -> 100 <= clamp_speed speed maxSpeed <= maxSpeed.
Proof.
  intros H. unfold clamp_speed.
  destruct (Z.ltb_spec speed 100); [lia|].
  destruct (speed >? maxSpeed) eqn:E; [lia|].
  rewrite Z.gtb_ltb in E. apply Z.ltb_ge in E. lia.
Qed.

Lemma commanded_velocities_app a b :
  commanded_velocities (a ++ b) =
  commanded_velocities a ++ commanded_velocities b.
Proof. unfold commanded_velocities. apply flat_map_app. Qed.

(** C5, counterexample. With [enc_to_mot] = 1 the upper bound
    1·7000/256 = 27 lies below 100, and the velocity sent is 100. *)
Lemma low_factor_velocity_above_bound :
  exists st',
    axis_control (encoder_at 450) 0 0 1000 1000 500 0 (st_with 1)
      = Some (st', 100) /\
    commanded_velocities (bus st') = [100] /\
    1 * 7000 / 256 = 27 /\
    ~ (100 <= 100 <= 1 * 7000 / 256).
Proof.
  eexists. split; [vm_compute; reflexivity|].
  split; [reflexivity|]. split; [reflexivity|].
  vm_compute. intros [_ H]. apply H. reflexivity.
Qed.

(** C5, amended. With [enc_to_mot[j]] = 256, a look-ahead of 200,
    [from] = 0, [to] = 1000, [duration] = 1000, a window [delta] = 500
    and an encoder reading of 450, the playback loop sends the
    destination 500 (plus the position bias) and the velocity 250.  In
    general, on the path with look-ahead and a readable encoder, the
    velocity kept in [speeds[j]] lies in [100, enc_to_mot[j]·7000/256]
    whenever [enc_to_mot[j]] is at least 4; what is sent is that velocity
    narrowed to 16 bits, which is the velocity itself when
    [enc_to_mot[j]] is at most 2396. *)
Theorem lookahead_velocity
        (encoder : list BusOp -> Z -> option Z) (j : Z) (st : State) :
  (forall speed_j,
     lookahead (mem_config st) = 200 ->
     enc_to_mot (mem_config st) !! Z.to_nat j = Some 256 ->
     encoder (bus st) (j + 1) = Some 450 ->
     exists st',
       axis_control encoder j 0 1000 1000 500 speed_j st = Some (st', 250) /\
       bus st' = bus st ++ [ReadEncoder (j + 1);
                            SetDestination (j + 1) (500 + NT_POSITION_BIAS);
                            SetVelocity (j + 1) 250]) /\
  (forall from to duration delta speed_j e2m encPos,
     duration <> 0 ->
     lookahead (mem_config st) <> 0 ->
     enc_to_mot (mem_config st) !! Z.to_nat j = Some e2m ->
     encoder (bus st) (j + 1) = Some encPos ->
     4 <= e2m <= 65535 ->
     exists st' speed,
       axis_control encoder j from to duration delta speed_j st
         = Some (st', speed) /\
       100 <= speed <= e2m * 7000 / 256 /\
       commanded_velocities (bus st') =
         commanded_velocities (bus st) ++ [u16 speed] /\
       (e2m <= 2396 -> u16 speed = speed)).
Proof.
  split.
  - intros speed_j Hl He Henc.
    unfold axis_control, nt_encoderPosition.
    change (1000 =? 0) with false. cbv iota.
    cbn [mem_config bus_op bus]. rewrite Hl.
    change (negb (200 =? 0)) with true. cbv iota.
    rewrite Henc. cbn [mem_config bus_op bus]. rewrite He.
    match goal with
    | |- context [clamp_speed ?a ?b] =>
        replace (clamp_speed a b) with 250 by (vm_compute; reflexivity)
    end.
    match goal with
    | |- context [SetDestination _ ?d] =>
        replace d with (500 + NT_POSITION_BIAS) by (vm_compute; reflexivity)
    end.
    change (u16 250) with 250.
    eexists. split; [reflexivity|].
    cbn [bus set_g_encPos bus_op]. rewrite <- !app_assoc. reflexivity.
  - intros from to duration delta speed_j e2m encPos Hd Hl He Henc Hr.
    unfold axis_control, nt_encoderPosition.
    replace (duration =? 0) with false by (symmetry; apply Z.eqb_neq; exact Hd).
    cbn [mem_config bus_op bus].
    replace (lookahead (mem_config st) =? 0) with false
      by (symmetry; apply Z.eqb_neq; exact Hl).
    cbn [negb]. rewrite Henc. cbn [mem_config bus_op bus]. rewrite He.
    eexists. eexists. split; [reflexivity|].
    rewrite maxSpeed_of_exact by lia.
    assert (Hmax : 100 <= e2m * 7000 / 256).
    { apply Z.div_le_lower_bound; lia. }
    match goal with
    | |- context [clamp_speed ?v _] =>
        pose proof (clamp_speed_range v (e2m * 7000 / 256) Hmax) as Hc
    end.
    split; [exact Hc|]. split.
    + cbn [bus set_g_encPos bus_op]. rewrite <- !app_assoc.
      rewrite commanded_velocities_app. reflexivity.
    + intros Hhi. apply u16_id.
      assert (e2m * 7000 / 256 < 65536).
      { apply Z.div_lt_upper_bound; lia. }
      lia.
Qed.

Lemma lookahead_velocity_witness :
  (exists st',
     axis_control (encoder_at 450) 0 0 1000 1000 500 0 (st_with 256)
       = Some (st', 250) /\
     bus st' = bus (st_with 256)
                 ++ [ReadEncoder 1; SetDestination 1 16884; SetVelocity 1 250]) /\
  (exists st' speed,
     axis_control (encoder_at (-3000)) 0 0 1000 10 500 0 (st_with 256)
       = Some (st', speed) /\
     100 <= speed <= 256 * 7000 / 256 /\
     commanded_velocities (bus st') =
       commanded_velocities (bus (st_with 256)) ++ [u16 speed] /\
     (256 <= 2396 -> u16 speed = speed)).
Proof.
  split.
  - apply (proj1 (lookahead_velocity (encoder_at 450) 0 (st_with 256)) 0);
      reflexivity.
  - apply (proj2 (lookahead_velocity (encoder_at (-3000)) 0 (st_with 256))
             0 1000 10 500 0 256 (-3000)).
    + lia.
    + vm_compute. discriminate.
    + reflexivity.
    + reflexivity.
    + lia.
Defined.

End SequencerFacts.

Module HostFacts.
Import Host HostScenario.

Local Open Scope Q_scope.

(** *** Truncation and rounding *)








(** *** The tick transform *)




(** *** The uploader *)







(** *** The keyframe player's build phase *)






End HostFacts.

Module KeyframeTextFacts.
Import Host KeyframeText HostScenario.

Local Open Scope Q_scope.

(** C8, at the failing input. [toString] writes the angle 0.00001 in
    exponent notation; [validateString] does not admit the line, so
    [fromString] leaves the keyframe it is called on as it was: neither
    speed, pause, output command nor angle come back. *)
Theorem small_angle_line_rejected :
  toString kf_small = "speed:70 pause:1.5 output:1 Joint1:1e-05
"%string /\
  validateString (toString kf_small) = false /\
  fromString (toString kf_small) new_Keyframe = new_Keyframe /\
  speed (fromString (toString kf_small) new_Keyframe) <> speed kf_small /\
  jointAngles (fromString (toString kf_small) new_Keyframe) !! "Joint1"%string
    = None.
Proof.
  assert (H : fromString (toString kf_small) new_Keyframe = new_Keyframe)
    by (vm_compute; reflexivity).
  split; [vm_compute; reflexivity|].
  split; [vm_compute; reflexivity|].
  split; [exact H|]. rewrite H. split; [discriminate|reflexivity].
Qed.

(** A keyframe whose numbers print in plain notation within six
    significant digits does come back. *)
Lemma plain_line_roundtrip :
  toString kf_plain = "speed:70 pause:1.5 output:1 Joint(1):0.25
"%string /\
  validateString (toString kf_plain) = true /\
  speed (fromString (toString kf_plain) new_Keyframe) = 70%Z /\
  pause (fromString (toString kf_plain) new_Keyframe) == 3#2 /\
  digBox (fromString (toString kf_plain) new_Keyframe) = DO_SET /\
  exists a,
    jointAngles (fromString (toString kf_plain) new_Keyframe)
      !! "Joint(1)"%string = Some a /\ a == 1#4.
Proof.
  split; [vm_compute; reflexivity|].
  split; [vm_compute; reflexivity|].
  split; [vm_compute; reflexivity|].
  split; [vm_compute; reflexivity|].
  split; [vm_compute; reflexivity|].
  eexists. split; vm_compute; reflexivity.
Qed.

(** An angle with more than six significant digits passes validation
    but comes back rounded. *)
Lemma long_angle_rounded :
  number_double (1234567#10000000) = "0.123457"%string /\
  ~ toDouble (number_double (1234567#10000000)) == 1234567#10000000.
Proof.
  split; [vm_compute; reflexivity|]. vm_compute. discriminate.
Qed.

End KeyframeTextFacts.

Module RingBufferFacts.
Import RingBuffer.

Lemma land_mask (z : Z) : 0 <= z -> u8 (Z.land z BUFSIZE_MASK) = z mod 256.
Proof.
  intros Hz. change BUFSIZE_MASK with (Z.ones 8).
  rewrite Z.land_ones by lia. change (2 ^ 8) with 256.
  apply u8_id. apply Z.mod_pos_bound. lia.
Qed.

Lemma contents_length (b : CircularBuffer) :
  List.length (contents b) =
  Z.to_nat ((m_write_idx b - m_read_idx b) mod 256).
Proof. unfold contents. rewrite length_map, length_seq. reflexivity. Qed.

(** There are never more than 255 bytes waiting. *)
Lemma contents_bound (b : CircularBuffer) :
  (List.length (contents b) <= 255)%nat.
Proof.
  rewrite contents_length.
  pose proof (Z.mod_pos_bound (m_write_idx b - m_read_idx b) 256). lia.
Qed.

Lemma put_spec (c : Z) (b : CircularBuffer) :
  well_formed b ->
  well_formed (put c b) /\
  ((List.length (contents b) < 255)%nat ->
   contents (put c b) = contents b ++ [c]) /\
  (List.length (contents b) = 255%nat -> put c b = b).
Proof.
  intros (Hlen & Hw & Hr). unfold put.
  rewrite land_mask by lia. rewrite contents_length.
  set (w := m_write_idx b) in *. set (r := m_read_idx b) in *.
  assert (Hn : 0 <= (w - r) mod 256 < 256) by (apply Z.mod_pos_bound; lia).
  destruct (Z.eqb_spec ((w + 1) mod 256) r) as [Hfull|Hroom].
  - split; [unfold well_formed; tauto|]. split; [|reflexivity].
    intros Hlt. exfalso.
    assert ((w - r) mod 256 = 255).
    { rewrite <- Hfull.
      clear -Hw. Z.to_euclidean_division_equations. lia. }
    lia.
  - assert (Hcnt : (w - r) mod 256 < 255).
    { destruct (Z.eq_dec ((w - r) mod 256) 255) as [E|E]; [|lia].
      exfalso. apply Hroom.
      clear -Hw Hr E. Z.to_euclidean_division_equations. lia. }
    assert (Hnew : ((w + 1) mod 256 - r) mod 256 = (w - r) mod 256 + 1).
    { clear -Hw Hr Hcnt. Z.to_euclidean_division_equations. lia. }
    split.
    + repeat split; cbn [m_buf m_write_idx m_read_idx].
      * rewrite length_insert. exact Hlen.
      * apply Z.mod_pos_bound. lia.
      * apply Z.mod_pos_bound. lia.
      * lia.
      * lia.
    + split; [|lia]. intros _.
      unfold contents. cbn [m_buf m_write_idx m_read_idx]. fold w r.
      rewrite Hnew.
      replace (Z.to_nat ((w - r) mod 256 + 1))
        with (S (Z.to_nat ((w - r) mod 256))) by lia.
      rewrite seq_S, map_app. cbn [map Nat.add]. f_equal.
      * apply map_ext_in. intros k Hk. apply in_seq in Hk.
        rewrite list_lookup_insert_ne; [reflexivity|].
        intros E. apply Z2Nat.inj in E;
          [|lia|apply Z.mod_pos_bound; lia].
        assert (Z.of_nat k < (w - r) mod 256) by lia.
        clear -Hw Hr E H Hn. Z.to_euclidean_division_equations. lia.
      * f_equal.
        replace ((r + Z.of_nat (Z.to_nat ((w - r) mod 256))) mod 256) with w.
        -- rewrite list_lookup_insert_eq by lia. reflexivity.
        -- rewrite Z2Nat.id by lia.
           clear -Hw Hr. Z.to_euclidean_division_equations. lia.
Qed.

(** X16. [get] takes the oldest byte; on an empty buffer it changes nothing
    and reports the underrun. *)
Theorem get_queue (b : CircularBuffer) :
  well_formed b ->
  (forall c rest,
     contents b = c :: rest ->
     exists b', get b = (c, b', false) /\ contents b' = rest /\
                well_formed b') /\
  (contents b = [] -> exists c, get b = (c, b, true)).
Proof.
  intros (Hlen & Hw & Hr). unfold get.
  rewrite land_mask by lia.
  pose proof (contents_length b) as Hcl. unfold contents in *.
  set (w := m_write_idx b) in *. set (r := m_read_idx b) in *.
  assert (Hn : 0 <= (w - r) mod 256 < 256) by (apply Z.mod_pos_bound; lia).
  destruct (Z.eqb_spec r w) as [E|E]; cbn [negb].
  - split.
    + intros c rest Hc. exfalso.
      rewrite E, Z.sub_diag in Hc. discriminate Hc.
    + intros _. eexists. reflexivity.
  - assert (Hpos : 0 < (w - r) mod 256).
    { destruct (Z.eq_dec ((w - r) mod 256) 0) as [Z0|]; [|lia].
      exfalso. apply E.
      clear -Hw Hr Z0. Z.to_euclidean_division_equations. lia. }
    split.
    + intros c rest Hc.
      replace (Z.to_nat ((w - r) mod 256))
        with (S (Z.to_nat ((w - r) mod 256 - 1))) in Hc by lia.
      cbn [seq map] in Hc. injection Hc as Hhd Htl.
      eexists. split; [|split].
      * rewrite <- Hhd. change (Z.of_nat 0) with 0.
        rewrite Z.add_0_r, (Z.mod_small r) by lia. reflexivity.
      * cbn [m_buf m_write_idx m_read_idx]. fold w r. rewrite <- Htl.
        replace ((w - (r + 1) mod 256) mod 256) with ((w - r) mod 256 - 1)
          by (clear -Hw Hr Hpos; Z.to_euclidean_division_equations; lia).
        rewrite <- seq_shift, map_map. apply map_ext. intros k.
        do 3 f_equal. rewrite Nat2Z.inj_succ.
        clear. Z.to_euclidean_division_equations. lia.
      * repeat split; cbn [m_buf m_write_idx m_read_idx]; try lia;
          try exact Hlen; apply Z.mod_pos_bound; lia.
    + intros Hc. exfalso.
      replace (Z.to_nat ((w - r) mod 256))
        with (S (Z.to_nat ((w - r) mod 256 - 1))) in Hc by lia.
      discriminate Hc.
Qed.

(** X17. [available] says whether a byte is waiting, and after [flush] none
    is. *)
Theorem available_flush (b : CircularBuffer) :
  well_formed b ->
  (available b = true <-> contents b <> []) /\
  contents (flush b) = [] /\ available (flush b) = false.
Proof.
  intros (Hlen & Hw & Hr). unfold available, flush, contents.
  cbn [m_buf m_write_idx m_read_idx].
  set (w := m_write_idx b) in *. set (r := m_read_idx b) in *.
  split; [|split].
  - destruct (Z.eqb_spec r w) as [E|E]; cbn [negb].
    + rewrite E, Z.sub_diag. split; [discriminate|].
      intros H. exfalso. apply H. reflexivity.
    + split; [|reflexivity]. intros _ Hc.
      apply (f_equal (@List.length Z)) in Hc.
      rewrite length_map, length_seq in Hc. cbn [List.length] in Hc.
      assert ((w - r) mod 256 = 0).
      { pose proof (Z.mod_pos_bound (w - r) 256). lia. }
      apply E. clear -Hw Hr H. Z.to_euclidean_division_equations. lia.
  - rewrite Z.sub_diag. reflexivity.
  - rewrite Z.eqb_refl. reflexivity.
Qed.

(** X15. [put] appends the byte when fewer than 255 are waiting, and drops it
    when the buffer is full: of the 256 places one stays empty. *)
Theorem put_queue (c : Z) (b : CircularBuffer) :
  well_formed b ->
  well_formed (put c b) /\
  ((List.length (contents b) < 255)%nat ->
   contents (put c b) = contents b ++ [c]) /\
  (List.length (contents b) = 255%nat -> put c b = b).
Proof. apply put_spec. Qed.

(** X18. [putData] queues the bytes of a block in order as long as there is
    room, and drops the rest of the block. *)
Theorem putData_queue (data : list Z) : forall b : CircularBuffer,
  well_formed b ->
  (List.length data <= 255)%nat ->
  well_formed (putData data b) /\
  contents (putData data b) =
    contents b ++ take (255 - List.length (contents b)) data.
Proof.
  induction data as [|c data IH]; intros b Hwf Hlen.
  - split; [exact Hwf|]. cbn [putData foldl]. rewrite take_nil, app_nil_r.
    reflexivity.
  - cbn [List.length] in Hlen.
    destruct (put_spec c b Hwf) as (Hwf' & Happ & Hfull).
    unfold putData. cbn [foldl]. fold (putData data (put c b)).
    destruct (IH (put c b) Hwf') as [H1 H2]; [lia|].
    split; [exact H1|]. rewrite H2.
    pose proof (contents_bound b) as Hb.
    destruct (decide (List.length (contents b) = 255%nat)) as [E|E].
    + rewrite (Hfull E), E. cbn [Nat.sub take]. rewrite take_0. reflexivity.
    + rewrite (Happ ltac:(lia)), length_app. cbn [List.length].
      replace (255 - List.length (contents b))%nat
        with (S (255 - (List.length (contents b) + 1))) by lia.
      cbn [take]. rewrite <- app_assoc. reflexivity.
Qed.

Import CoverageScenario.

Lemma put_queue_witness :
  well_formed (put 5 rb_two) /\
  ((List.length (contents rb_two) < 255)%nat ->
   contents (put 5 rb_two) = contents rb_two ++ [5]) /\
  (List.length (contents rb_two) = 255%nat -> put 5 rb_two = rb_two).
Proof.
  apply (put_queue 5 rb_two).
  unfold well_formed. vm_compute.
  repeat split; try reflexivity; discriminate.
Defined.

Lemma get_queue_witness :
  (forall c rest,
     contents rb_two = c :: rest ->
     exists b', get rb_two = (c, b', false) /\ contents b' = rest /\
                well_formed b') /\
  (contents rb_two = [] -> exists c, get rb_two = (c, rb_two, true)).
Proof.
  apply (get_queue rb_two).
  unfold well_formed. vm_compute.
  repeat split; try reflexivity; discriminate.
Defined.

Lemma available_flush_witness :
  (available rb_two = true <-> contents rb_two <> []) /\
  contents (flush rb_two) = [] /\ available (flush rb_two) = false.
Proof.
  apply (available_flush rb_two).
  unfold well_formed. vm_compute.
  repeat split; try reflexivity; discriminate.
Defined.

Lemma putData_queue_witness :
  well_formed (putData [1; 2; 3] rb_two) /\
  contents (putData [1; 2; 3] rb_two) =
    contents rb_two ++ take (255 - List.length (contents rb_two)) [1; 2; 3].
Proof.
  apply (putData_queue [1; 2; 3] rb_two).
  - unfold well_formed. vm_compute.
    repeat split; try reflexivity; discriminate.
  - vm_compute. lia.
Defined.

End RingBufferFacts.

Module DecoderMoreFacts.
Import Decoder DecoderFacts Invariants.

(** The bytes up to and including a matching checksum leave the decoder
    waiting for the terminator, with the payload in its buffer. *)
Lemma feed_to_checksum p c payload cs tail :
  parser_state p = PS_START ->
  List.length (payloadBuffer p) = 256%nat ->
  0 <= c < proto.CMD_COUNT ->
  (List.length payload <= 255)%nat ->
  exists p1,
    feed p (255 :: proto.VERSION :: c :: Z.of_nat (List.length payload)
              :: payload ++ cs :: tail)
      = feed p1 (cs :: tail) /\
    parser_state p1 = PS_CHECKSUM /\
    command p1 = c /\
    payloadLength p1 = Z.of_nat (List.length payload) /\
    List.length (payloadBuffer p1) = 256%nat /\
    take (List.length payload) (payloadBuffer p1) = payload.
Proof.
  intros Hst Hbuf Hc Hl.
  rewrite (feed_header p c _ _ Hst Hc).
  destruct payload as [|b payload'] eqn:Hp.
  - cbn [List.length Z.of_nat Z.eqb app]. eexists. split; [reflexivity|].
    cbn. repeat split. exact Hbuf.
  - rewrite <- Hp in *.
    assert (HL : Z.of_nat (List.length payload) <> 0) by (rewrite Hp; cbn; lia).
    replace (Z.of_nat (List.length payload) =? 0) with false
      by (symmetry; apply Z.eqb_neq; exact HL).
    set (p0 := {| parser_state := PS_PAYLOAD; command := c;
                  payloadLength := Z.of_nat (List.length payload);
                  payloadIdx := 0; payloadBuffer := payloadBuffer p |}).
    destruct (feed_payload payload p0) as (p1 & Hf & Hs & Hcm & Hpl & Hb & Ht).
    + reflexivity.
    + rewrite Hp. discriminate.
    + cbn. lia.
    + cbn. lia.
    + cbn. lia.
    + exact Hbuf.
    + exists p1. rewrite feed_app, Hf.
      cbn [payloadLength command payloadIdx payloadBuffer p0] in *.
      split; [destruct (feed p1 (cs :: tail)); reflexivity|].
      repeat split; try assumption.
      rewrite Nat2Z.id in Ht. cbn [Z.to_nat take] in Ht. exact Ht.
Qed.

(** X1. A packet whose checksum byte is wrong is dropped: nothing is handed
    over, and the decoder is back in START after the terminator. *)
Theorem bad_checksum_dropped (p : Parser) (c : Z) (payload : list Z) (cs : Z) :
  parser_state p = PS_START ->
  List.length (payloadBuffer p) = 256%nat ->
  0 <= c < proto.CMD_COUNT ->
  (List.length payload <= 255)%nat ->
  cs <> proto.packetChecksum
          (proto.mkHeader c (Z.of_nat (List.length payload))) (Some payload) ->
  exists p',
    feed p (255 :: proto.VERSION :: c :: Z.of_nat (List.length payload)
              :: payload ++ [cs; 13]) = (p', []) /\
    parser_state p' = PS_START.
Proof.
  intros Hst Hbuf Hc Hl Hcs.
  destruct (feed_to_checksum p c payload cs [13] Hst Hbuf Hc Hl)
    as (p1 & Hf & Hs & Hcm & Hpl & Hb & Ht).
  rewrite Hf. rewrite checksum_agrees in Hcs by assumption.
  destruct p1 as [st cm pl pi pb]. cbn in Hs, Hcm, Hpl, Hb, Ht. subst st cm pl.
  rewrite (feed_cons_None _ _
    {| parser_state := PS_START; command := c;
       payloadLength := Z.of_nat (List.length payload);
       payloadIdx := pi; payloadBuffer := pb |}).
  - eexists. split; [reflexivity|]. reflexivity.
  - unfold parser_step. cbn [parser_state command payloadLength payloadBuffer].
    rewrite Nat2Z.id, Ht.
    replace (_ =? cs) with false; [reflexivity|].
    symmetry. apply Z.eqb_neq. intros E. apply Hcs. symmetry. exact E.
Qed.

Lemma known_command_step p c :
  known_command p ->
  known_command (fst (parser_step p c)) /\
  forall pk, snd (parser_step p c) = Some pk ->
             pk_command pk < proto.CMD_COUNT.
Proof.
  unfold known_command, parser_step.
  destruct p as [st cm pl pi pb].
  destruct st;
    cbn [fst snd parser_state command payloadIdx payloadLength set_state];
    intros H.
  - split; [destruct (c =? 255); exact I|discriminate].
  - split; [destruct (c =? proto.VERSION); exact I|discriminate].
  - split; [|discriminate].
    destruct (Z.ltb_spec c proto.CMD_COUNT); [assumption|exact I].
  - split; [destruct (c =? 0); exact H|discriminate].
  - split; [|discriminate].
    destruct (u8 (pi + 1) =? pl); exact H.
  - split; [|discriminate].
    match goal with |- context [if ?b then _ else _] => destruct b end;
      [exact H|exact I].
  - split; [exact I|].
    intros pk. destruct (c =? 13); [|discriminate].
    intros [= <-]. exact H.
Qed.

Lemma known_command_feed bytes : forall p,
  known_command p ->
  Forall (fun pk => pk_command pk < proto.CMD_COUNT) (snd (feed p bytes)).
Proof.
  induction bytes as [|c bytes IH]; intros p Hk; cbn [feed].
  - constructor.
  - destruct (known_command_step p c Hk) as [Hk1 Hout].
    destruct (parser_step p c) as [p1 o]. cbn [fst snd] in *.
    specialize (IH p1 Hk1). destruct (feed p1 bytes) as [p2 out].
    cbn [snd] in *. destruct o as [pk|]; [|exact IH].
    constructor; [apply Hout; reflexivity|exact IH].
Qed.

(** X2. Whatever bytes arrive, the decoder started in START never hands over
    a packet whose command code is [CMD_COUNT] or more. *)
Theorem unknown_command_never_dispatched (p : Parser) (bytes : list Z) :
  parser_state p = PS_START ->
  Forall (fun pk => pk_command pk < proto.CMD_COUNT) (snd (feed p bytes)).
Proof.
  intros Hst. apply known_command_feed. unfold known_command.
  rewrite Hst. exact I.
Qed.

Import DeviceScenario.

Lemma bad_checksum_dropped_witness :
  exists p',
    feed fresh_parser
      (255 :: proto.VERSION :: proto.CMD_STOP :: Z.of_nat (List.length [1; 2])
         :: [1; 2] ++ [0; 13]) = (p', []) /\
    parser_state p' = PS_START.
Proof.
  apply (bad_checksum_dropped fresh_parser proto.CMD_STOP [1; 2] 0).
  - reflexivity.
  - reflexivity.
  - vm_compute. split; [discriminate | reflexivity].
  - vm_compute. lia.
  - vm_compute. discriminate.
Defined.

Lemma unknown_command_never_dispatched_witness :
  Forall (fun pk => pk_command pk < proto.CMD_COUNT)
         (feed fresh_parser [255; 10; 77; 0; 168; 13; 255; 10; 8; 0; 237; 13]).2.
Proof.
  apply (unknown_command_never_dispatched fresh_parser
           [255; 10; 77; 0; 168; 13; 255; 10; 8; 0; 237; 13]).
  reflexivity.
Defined.

End DecoderMoreFacts.

Module WireFacts.
Import proto DeviceLoop.

Lemma u16_join (t : Z) : is_u16 t -> t mod 256 + 256 * (t / 256 mod 256) = t.
Proof.
  unfold is_u16. intros H. Z.to_euclidean_division_equations. lia.
Qed.

Lemma byte_at_app_r (pre l : list Z) (i : nat) :
  byte_at (pre ++ l) (List.length pre + i) = byte_at l i.
Proof.
  unfold byte_at. rewrite lookup_app_r by lia.
  replace (List.length pre + i - List.length pre)%nat with i by lia.
  reflexivity.
Qed.

Lemma u16_at_app_r (pre l : list Z) (i : nat) :
  u16_at (pre ++ l) (List.length pre + i) = u16_at l i.
Proof.
  unfold u16_at. rewrite byte_at_app_r.
  replace (S (List.length pre + i)) with (List.length pre + S i)%nat by lia.
  rewrite byte_at_app_r. reflexivity.
Qed.

Lemma u16_array_at_app_r (pre l : list Z) (i n : nat) :
  u16_array_at (pre ++ l) (List.length pre + i) n = u16_array_at l i n.
Proof.
  unfold u16_array_at. apply map_ext. intros k.
  rewrite <- Nat.add_assoc. apply u16_at_app_r.
Qed.

Lemma decode_Keyframe_encode (pre post : list Z) (k : Keyframe) :
  wf_Keyframe k ->
  decode_Keyframe (pre ++ encode_Keyframe k ++ post) (List.length pre) = k.
Proof.
  intros (Hd & Hlen & Hts & Hoc). unfold decode_Keyframe.
  rewrite <- (Nat.add_0_r (List.length pre)) at 1.
  rewrite u16_at_app_r, u16_array_at_app_r, byte_at_app_r.
  destruct k as [d ts oc]. cbn [duration ticks output_command] in *.
  do 8 (destruct ts as [|? ts]; [discriminate Hlen|]).
  destruct ts; [|discriminate Hlen].
  repeat match goal with
         | H : Forall _ (_ :: _) |- _ => inversion H; subst; clear H
         end.
  unfold encode_Keyframe, u16_bytes, u16_array_at, u16_at, byte_at.
  cbn [duration ticks output_command map concat app seq lookup list_lookup
       Nat.add Nat.mul default from_option].
  unfold id. rewrite !u16_join by assumption. reflexivity.
Qed.

Lemma decode_Config_encode (post : list Z) (c : Config) :
  wf_Config c ->
  decode_Config (encode_Config c ++ post) = c.
Proof.
  intros (Hn & Ha & Hlen & Hes & Hl).
  destruct c as [n a es l]. cbn [num_keyframes active_axes enc_to_mot lookahead] in *.
  do 8 (destruct es as [|? es]; [discriminate Hlen|]).
  destruct es; [|discriminate Hlen].
  repeat match goal with
         | H : Forall _ (_ :: _) |- _ => inversion H; subst; clear H
         end.
  unfold decode_Config, encode_Config, u16_bytes, u16_array_at, u16_at, byte_at.
  cbn [num_keyframes active_axes enc_to_mot lookahead map concat app seq
       lookup list_lookup Nat.add Nat.mul default from_option].
  unfold id. rewrite !u16_join by assumption. reflexivity.
Qed.

(** X3. A keyframe whose fields fit their wire types is read back from its
    19 bytes wherever they lie in a payload. *)
Theorem decode_encode_Keyframe (pre post : list Z) (k : Keyframe) :
  wf_Keyframe k ->
  decode_Keyframe (pre ++ encode_Keyframe k ++ post) (List.length pre) = k.
Proof. apply decode_Keyframe_encode. Qed.

(** X4. A configuration whose fields fit their wire types is read back from
    its 22 bytes. *)
Theorem decode_encode_Config (post : list Z) (c : Config) :
  wf_Config c ->
  decode_Config (encode_Config c ++ post) = c.
Proof. apply decode_Config_encode. Qed.

Import DeviceScenario CoverageScenario.

Lemma decode_encode_Keyframe_witness :
  decode_Keyframe ([200] ++ encode_Keyframe kf_move ++ [1; 2; 3])
                  (List.length [200]) = kf_move.
Proof.
  apply (decode_encode_Keyframe [200] [1; 2; 3] kf_move).
  unfold wf_Keyframe, is_u16. vm_compute.
  repeat split; try discriminate; try reflexivity;
    repeat constructor; discriminate.
Defined.

Lemma decode_encode_Config_witness :
  decode_Config (encode_Config cfg_large ++ [9; 9]) = cfg_large.
Proof.
  apply (decode_encode_Config [9; 9] cfg_large).
  unfold wf_Config, is_u16. vm_compute.
  repeat split; try discriminate; try reflexivity;
    repeat constructor; discriminate.
Defined.

End WireFacts.

Module DeviceLoopFacts.
Import proto Device DeviceLoop Invariants.

Section Dispatcher.

Variable encoder : list BusOp -> Z -> option Z.
Variable indeterminate : nat -> Z.
Variable motion_runSequence : bool -> State -> option State.

Lemma set_parser_twice p q st : set_parser p (set_parser q st) = set_parser p st.
Proof. reflexivity. Qed.

(** Bytes that complete no packet only move the decoder. *)
Lemma input_bytes_quiet bytes : forall st p',
  Decoder.feed (parser st) bytes = (p', []) ->
  input_bytes encoder indeterminate motion_runSequence bytes st
    = Some (set_parser p' st).
Proof.
  induction bytes as [|c bytes IH]; intros st p' Hf; cbn [Decoder.feed] in Hf.
  - injection Hf as <-. destruct st; reflexivity.
  - cbn [input_bytes]. unfold cmd_input.
    destruct (Decoder.parser_step (parser st) c) as [p1 o].
    destruct (Decoder.feed p1 bytes) as [p2 out] eqn:Hf2.
    destruct o as [pk|]; [discriminate Hf|].
    injection Hf as <- ->.
    rewrite (IH (set_parser p1 st) p2) by exact Hf2.
    rewrite set_parser_twice. reflexivity.
Qed.

Lemma input_bytes_app a : forall b st,
  input_bytes encoder indeterminate motion_runSequence (a ++ b) st =
  match input_bytes encoder indeterminate motion_runSequence a st with
  | Some st' => input_bytes encoder indeterminate motion_runSequence b st'
  | None => None
  end.
Proof.
  induction a as [|c a IH]; intros b st; cbn [app input_bytes].
  - reflexivity.
  - destruct (cmd_input _ _ _ c st) as [[st' ?]|]; [apply IH|reflexivity].
Qed.

Lemma encode_Keyframe_length (kf : Keyframe) :
  List.length (ticks kf) = 8%nat ->
  List.length (encode_Keyframe kf) = 19%nat.
Proof.
  intros H. destruct kf as [d ts oc]. cbn [ticks] in H.
  do 8 (destruct ts as [|? ts]; [discriminate H|]).
  destruct ts; [reflexivity|discriminate H].
Qed.

(** A well-formed packet without its terminator leaves the decoder at
    END with command, length and payload in place. *)
Lemma feed_to_end p c payload :
  Decoder.parser_state p = Decoder.PS_START ->
  List.length (Decoder.payloadBuffer p) = 256%nat ->
  0 <= c < CMD_COUNT ->
  (List.length payload <= 255)%nat ->
  exists pi pb,
    Decoder.feed p
      (255 :: VERSION :: c :: Z.of_nat (List.length payload)
         :: payload ++
            [packetChecksum (mkHeader c (Z.of_nat (List.length payload)))
                            (Some payload)])
      = ({| Decoder.parser_state := Decoder.PS_END; Decoder.command := c;
            Decoder.payloadLength := Z.of_nat (List.length payload);
            Decoder.payloadIdx := pi; Decoder.payloadBuffer := pb |}, []) /\
    List.length pb = 256%nat /\
    take (List.length payload) pb = payload.
Proof.
  intros Hst Hbuf Hc Hl.
  destruct (DecoderMoreFacts.feed_to_checksum p c payload
              (packetChecksum (mkHeader c (Z.of_nat (List.length payload)))
                              (Some payload)) [] Hst Hbuf Hc Hl)
    as (p1 & Hf & Hs & Hcm & Hpl & Hb & Ht).
  destruct p1 as [s1 cm pl pi pb].
  cbn [Decoder.parser_state Decoder.command Decoder.payloadLength
       Decoder.payloadBuffer] in Hs, Hcm, Hpl, Hb, Ht.
  subst s1 cm pl.
  exists pi, pb. split; [|split; assumption].
  rewrite Hf.
  rewrite (DecoderFacts.feed_cons_None _ _
    {| Decoder.parser_state := Decoder.PS_END; Decoder.command := c;
       Decoder.payloadLength := Z.of_nat (List.length payload);
       Decoder.payloadIdx := pi; Decoder.payloadBuffer := pb |}).
  - reflexivity.
  - unfold Decoder.parser_step.
    cbn [Decoder.parser_state Decoder.command Decoder.payloadLength
         Decoder.payloadBuffer Decoder.set_state].
    rewrite Nat2Z.id, Ht.
    rewrite DecoderFacts.checksum_agrees by assumption.
    rewrite Z.eqb_refl. reflexivity.
Qed.

(** The bytes of a well-formed packet, received with the decoder at START,
    are one dispatch of the command on the payload. *)
Lemma input_bytes_packet st c payload :
  Decoder.parser_state (parser st) = Decoder.PS_START ->
  List.length (Decoder.payloadBuffer (parser st)) = 256%nat ->
  0 <= c < CMD_COUNT ->
  (List.length payload <= 255)%nat ->
  exists pi pb,
    List.length pb = 256%nat /\
    take (List.length payload) pb = payload /\
    input_bytes encoder indeterminate motion_runSequence (Packet c payload) st
    = handleCommand encoder indeterminate motion_runSequence
        c pb (Z.of_nat (List.length payload))
        (set_parser
           {| Decoder.parser_state := Decoder.PS_START; Decoder.command := c;
              Decoder.payloadLength := Z.of_nat (List.length payload);
              Decoder.payloadIdx := pi; Decoder.payloadBuffer := pb |} st).
Proof.
  intros Hst Hbuf Hc Hl.
  destruct (feed_to_end (parser st) c payload Hst Hbuf Hc Hl)
    as (pi & pb & Hf & Hb & Ht).
  exists pi, pb. split; [exact Hb|]. split; [exact Ht|].
  unfold Packet, header_bytes.
  change (start (mkHeader c (Z.of_nat (List.length payload)))) with 255.
  change (version (mkHeader c (Z.of_nat (List.length payload)))) with VERSION.
  change (command (mkHeader c (Z.of_nat (List.length payload)))) with (u8 c).
  change (length (mkHeader c (Z.of_nat (List.length payload))))
    with (u8 (Z.of_nat (List.length payload))).
  rewrite (u8_id c) by (unfold CMD_COUNT in Hc; lia).
  rewrite (u8_id (Z.of_nat _)) by lia.
  set (cs := packetChecksum _ _) in *.
  replace ([255; VERSION; c; Z.of_nat (List.length payload)]
             ++ payload ++ [cs; 13])
    with ((255 :: VERSION :: c :: Z.of_nat (List.length payload)
             :: payload ++ [cs]) ++ [13])
    by (cbn [app]; rewrite <- app_assoc; reflexivity).
  rewrite input_bytes_app.
  rewrite (input_bytes_quiet _ _ _ Hf).
  cbn [input_bytes]. unfold cmd_input, Decoder.parser_step.
  cbn [parser set_parser Decoder.parser_state Decoder.set_state
       Decoder.command Decoder.payloadLength Decoder.payloadBuffer].
  change (13 =? 13) with true. cbv iota.
  cbn [Decoder.pk_command Decoder.pk_payload Decoder.pk_length].
  rewrite set_parser_twice. unfold Decoder.set_state.
  cbn [Decoder.command Decoder.payloadLength Decoder.payloadIdx
       Decoder.payloadBuffer].
  match goal with |- context [handleCommand ?e ?i ?m ?a ?b ?l ?s] =>
    destruct (handleCommand e i m a b l s) end; reflexivity.
Qed.

(** X6. The bytes of a SAVE_KEYFRAME packet, received by a device at rest,
    put the keyframe at its index in the RAM buffer and are answered with
    the acknowledgement; the store and the configuration stay. *)
Theorem save_keyframe_packet_stored (st : State) (index : Z) (kf : Keyframe) :
  g_isPlaying st = false ->
  Decoder.parser_state (parser st) = Decoder.PS_START ->
  List.length (Decoder.payloadBuffer (parser st)) = 256%nat ->
  0 <= index < MAX_KEYFRAMES ->
  wf_Keyframe kf ->
  exists st',
    input_bytes encoder indeterminate motion_runSequence
      (Packet CMD_SAVE_KEYFRAME (index :: encode_Keyframe kf)) st = Some st' /\
    g_buffer st' = <[Z.to_nat index := kf]> (g_buffer st) /\
    to_pc st' = to_pc st ++ SimplePacket CMD_SAVE_KEYFRAME /\
    g_keyframe_memory st' = g_keyframe_memory st /\
    g_config_memory st' = g_config_memory st /\
    mem_config st' = mem_config st.
Proof.
  intros Hidle Hst Hbuf Hidx Hwf.
  pose proof Hwf as (_ & Hticks & _ & _).
  assert (Hlen : List.length (index :: encode_Keyframe kf) = 20%nat).
  { cbn [List.length]. rewrite encode_Keyframe_length; auto. }
  destruct (input_bytes_packet st CMD_SAVE_KEYFRAME
              (index :: encode_Keyframe kf) Hst Hbuf)
    as (pi & pb & Hb & Ht & ->);
    [unfold CMD_SAVE_KEYFRAME, CMD_COUNT; lia | lia |].
  rewrite Hlen in *. change (Z.of_nat 20) with sizeof_SaveKeyframe.
  rewrite DeviceFacts.save_keyframe_idle by exact Hidle.
  assert (Hpb : pb = [index] ++ encode_Keyframe kf ++ drop 20 pb).
  { rewrite <- (take_drop 20 pb) at 1. rewrite Ht. reflexivity. }
  assert (Hi : byte_at pb 0 = index) by (rewrite Hpb; reflexivity).
  assert (Hk : decode_Keyframe pb 1 = kf).
  { rewrite Hpb. apply (WireFacts.decode_Keyframe_encode [index]). exact Hwf. }
  rewrite Hi, Hk. eexists. split; [reflexivity|].
  unfold motion_writeToBuffer.
  replace (index >=? MAX_KEYFRAMES) with false
    by (symmetry; rewrite Z.geb_leb; apply Z.leb_gt; lia).
  repeat split.
Qed.

Lemma feedback_loop_playing n : forall i positions st,
  g_isPlaying st = true ->
  0 <= i -> i + Z.of_nat n <= NUM_AXES ->
  List.length positions = 8%nat ->
  exists positions',
    feedback_loop encoder n i positions st = (st, positions') /\
    List.length positions' = 8%nat /\
    forall k, positions' !! k =
      if decide (Z.to_nat i <= k < Z.to_nat i + n)%nat
      then Some (default 0 (g_encPos st !! k)) else positions !! k.
Proof.
  unfold NUM_AXES.
  induction n as [|n IH]; intros i positions st Hp Hi Hn Hlen.
  - exists positions. split; [reflexivity|]. split; [exact Hlen|].
    intros k. rewrite decide_False by lia. reflexivity.
  - cbn [feedback_loop]. unfold motion_feedback, NUM_AXES.
    replace (i >=? 8) with false
      by (symmetry; rewrite Z.geb_leb; apply Z.leb_gt; lia).
    rewrite Hp.
    destruct (IH (i + 1)
                (<[Z.to_nat i := default 0 (g_encPos st !! Z.to_nat i)]> positions)
                st Hp) as (ps & Hf & Hlen' & Hk);
      [lia | lia | rewrite length_insert; exact Hlen |].
    exists ps. split; [exact Hf|]. split; [exact Hlen'|].
    intros k. rewrite Hk.
    replace (Z.to_nat (i + 1)) with (S (Z.to_nat i)) by lia.
    destruct (decide (k = Z.to_nat i)) as [->|Hne].
    + rewrite decide_False by lia. rewrite decide_True by lia.
      rewrite list_lookup_insert_eq by lia. reflexivity.
    + rewrite list_lookup_insert_ne by (intros E; apply Hne; symmetry; exact E).
      destruct (decide (S (Z.to_nat i) <= k < S (Z.to_nat i) + n)%nat).
      * rewrite decide_True by lia. reflexivity.
      * rewrite decide_False by lia. reflexivity.
Qed.

(** X12. A feedback request during playback is answered from the positions the
    playback loop has cached: the motor bus sees no traffic, the flag
    byte says playing, and the state changes in nothing but the answer
    queued for the host. *)
Theorem feedback_while_playing_uses_cache (CMD_CODE : Z) (st : State) :
  g_isPlaying st = true ->
  0 <= active_axes (mem_config st) <= NUM_AXES ->
  exists positions,
    writeFeedbackPacket encoder indeterminate CMD_CODE st =
      Some (put_to_pc
              (Packet CMD_CODE
                 ([active_axes (mem_config st); FF_PLAYING] ++
                  concat (map (fun z => u16_bytes (u16 z)) positions)))
              st) /\
    List.length positions = 8%nat /\
    forall k, (k < 8)%nat ->
      positions !! k =
        Some (if decide (Z.of_nat k < active_axes (mem_config st))
              then default 0 (g_encPos st !! k)
              else indeterminate k).
Proof.
  intros Hp Hax. unfold writeFeedbackPacket, motion_isPlaying.
  replace (active_axes (mem_config st) >? NUM_AXES) with false
    by (symmetry; rewrite Z.gtb_ltb; apply Z.ltb_ge; lia).
  rewrite Hp.
  destruct (feedback_loop_playing (Z.to_nat (active_axes (mem_config st))) 0
              (map (fun k => indeterminate k) (seq 0 8)) st Hp)
    as (ps & Hf & Hlen & Hk); [lia | lia | reflexivity |].
  rewrite Hf. exists ps.
  rewrite (u8_id (active_axes (mem_config st))) by (unfold NUM_AXES in Hax; lia).
  split; [reflexivity|]. split; [exact Hlen|].
  intros k Hk8. rewrite Hk.
  change (Z.to_nat 0) with 0%nat.
  destruct (decide (Z.of_nat k < active_axes (mem_config st))).
  - rewrite decide_True by lia. reflexivity.
  - rewrite decide_False by lia.
    do 8 (destruct k as [|k]; [reflexivity|]). lia.
Qed.

Lemma keyframeReached_loop_blind keyframe n : forall j max_diff st,
  (forall traffic id, encoder traffic id = None) ->
  exists st',
    keyframeReached_loop encoder keyframe n j max_diff st = Some (st', max_diff) /\
    outputs st' = outputs st /\ to_pc st' = to_pc st /\
    List.length (bus st') = (List.length (bus st) + n)%nat.
Proof.
  induction n as [|n IH]; intros j max_diff st Hnone.
  - exists st. repeat split. cbn. lia.
  - cbn [keyframeReached_loop]. unfold nt_encoderPosition. rewrite Hnone.
    destruct (IH (j + 1) max_diff (bus_op (ReadEncoder (j + 1)) st) Hnone)
      as (st' & Hl & Ho & Ht & Hb).
    exists st'. split; [exact Hl|]. split; [exact Ho|]. split; [exact Ht|].
    rewrite Hb. cbn [bus bus_op]. rewrite length_app. cbn. lia.
Qed.

(** X14. When no encoder answers, a keyframe is never taken as reached: the test
    asks each active axis once and reports false. *)
Theorem keyframe_not_reached_without_encoders (keyframe : Keyframe)
        (st : State) :
  (forall traffic id, encoder traffic id = None) ->
  0 <= active_axes (mem_config st) <= 255 ->
  exists st',
    motion_keyframeReached encoder keyframe st = Some (st', false) /\
    outputs st' = outputs st /\
    List.length (bus st') =
      (List.length (bus st) + Z.to_nat (active_axes (mem_config st)))%nat.
Proof.
  intros Hnone Hax. unfold motion_keyframeReached.
  replace (active_axes (mem_config st) >? 255) with false
    by (symmetry; rewrite Z.gtb_ltb; apply Z.ltb_ge; lia).
  destruct (keyframeReached_loop_blind keyframe
              (Z.to_nat (active_axes (mem_config st))) 0 (-1) st Hnone)
    as (st' & -> & Ho & _ & Hb).
  exists st'. split; [reflexivity|]. split; assumption.
Qed.

Lemma keyframeReached_loop_max (pos : Z -> option Z) keyframe n :
  forall (j : nat) max_diff st,
  (forall traffic id, encoder traffic id = pos id) ->
  (j + n <= List.length (ticks keyframe))%nat ->
  exists st' M,
    keyframeReached_loop encoder keyframe n (Z.of_nat j) max_diff st
      = Some (st', M) /\
    max_diff <= M /\
    (M = max_diff \/
     exists k t e, (j <= k < j + n)%nat /\
       ticks keyframe !! k = Some t /\ pos (Z.of_nat k + 1) = Some e /\
       M = c_abs (s16 t - NT_POSITION_BIAS - e)) /\
    (forall k t e, (j <= k < j + n)%nat ->
       ticks keyframe !! k = Some t -> pos (Z.of_nat k + 1) = Some e ->
       c_abs (s16 t - NT_POSITION_BIAS - e) <= M).
Proof.
  induction n as [|n IH]; intros j max_diff st Henc Hlen.
  - exists st, max_diff. split; [reflexivity|]. split; [lia|].
    split; [left; reflexivity|]. intros k t e Hk. lia.
  - cbn [keyframeReached_loop]. unfold nt_encoderPosition. rewrite Henc.
    replace (Z.of_nat j + 1) with (Z.of_nat (S j)) by lia.
    destruct (pos (Z.of_nat (S j))) as [enc|] eqn:Hp.
    + rewrite Nat2Z.id.
      destruct (lookup_lt_is_Some_2 (ticks keyframe) j) as [t Ht]; [lia|].
      rewrite Ht.
      set (diff := c_abs (s16 t - NT_POSITION_BIAS - enc)).
      destruct (IH (S j) (if diff >? max_diff then diff else max_diff)
                  (bus_op (ReadEncoder (Z.of_nat (S j))) st) Henc)
        as (st' & M & Hl & Hge & Hor & Hall); [lia|].
      exists st', M. split; [exact Hl|].
      assert (Hmax : max_diff <= (if diff >? max_diff then diff else max_diff)
                     /\ diff <= (if diff >? max_diff then diff else max_diff)).
      { destruct (diff >? max_diff) eqn:E; rewrite Z.gtb_ltb in E;
          [apply Z.ltb_lt in E | apply Z.ltb_ge in E]; lia. }
      split; [lia|]. split.
      * destruct Hor as [HM | (k & t' & e' & Hk & Ht' & He' & HM)].
        -- destruct (diff >? max_diff) eqn:E.
           ++ right. exists j, t, enc. split; [lia|]. split; [exact Ht|].
              split; [|exact HM].
              replace (Z.of_nat j + 1) with (Z.of_nat (S j)) by lia. exact Hp.
           ++ left. exact HM.
        -- right. exists k, t', e'. split; [lia|]. auto.
      * intros k t' e' Hk Ht' He'.
        destruct (decide (k = j)) as [->|Hne].
        -- replace (Z.of_nat j + 1) with (Z.of_nat (S j)) in He' by lia.
           rewrite Ht in Ht'. rewrite Hp in He'.
           injection Ht' as <-. injection He' as <-. fold diff. lia.
        -- apply (Hall k t' e'); [lia | exact Ht' | exact He'].
    + destruct (IH (S j) max_diff
                  (bus_op (ReadEncoder (Z.of_nat (S j))) st) Henc)
        as (st' & M & Hl & Hge & Hor & Hall); [lia|].
      exists st', M. split; [exact Hl|]. split; [exact Hge|]. split.
      * destruct Hor as [HM | (k & t' & e' & Hk & Ht' & He' & HM)].
        -- left. exact HM.
        -- right. exists k, t', e'. split; [lia|]. auto.
      * intros k t' e' Hk Ht' He'.
        destruct (decide (k = j)) as [->|Hne].
        -- replace (Z.of_nat j + 1) with (Z.of_nat (S j)) in He' by lia.
           rewrite Hp in He'. discriminate He'.
        -- apply (Hall k t' e'); [lia | exact Ht' | exact He'].
Qed.

(** X13. With encoders that answer the same whatever the traffic, a keyframe
    counts as reached exactly when some active axis could be read with a
    16-bit absolute difference that is not negative, and every active
    axis that could be read differs by less than 50 ticks from the
    keyframe; axes that give no answer are left out of the test. *)
Theorem keyframe_reached_iff (pos : Z -> option Z) (keyframe : Keyframe)
        (st : State) :
  (forall traffic id, encoder traffic id = pos id) ->
  0 <= active_axes (mem_config st) <= NUM_AXES ->
  List.length (ticks keyframe) = 8%nat ->
  exists st' reached,
    motion_keyframeReached encoder keyframe st = Some (st', reached) /\
    (reached = true <->
     (exists k t e, Z.of_nat k < active_axes (mem_config st) /\
        ticks keyframe !! k = Some t /\ pos (Z.of_nat k + 1) = Some e /\
        0 <= c_abs (s16 t - NT_POSITION_BIAS - e)) /\
     (forall k t e, Z.of_nat k < active_axes (mem_config st) ->
        ticks keyframe !! k = Some t -> pos (Z.of_nat k + 1) = Some e ->
        c_abs (s16 t - NT_POSITION_BIAS - e) < 50)).
Proof.
  unfold NUM_AXES. intros Henc Hax Hlen. unfold motion_keyframeReached.
  replace (active_axes (mem_config st) >? 255) with false
    by (symmetry; rewrite Z.gtb_ltb; apply Z.ltb_ge; lia).
  destruct (keyframeReached_loop_max pos keyframe
              (Z.to_nat (active_axes (mem_config st))) 0 (-1) st Henc)
    as (st' & M & Hl & Hge & Hor & Hall); [lia|].
  change (Z.of_nat 0) with 0 in Hl. rewrite Hl.
  exists st', ((M >=? 0) && (M <? 50)). split; [reflexivity|].
  rewrite andb_true_iff, Z.geb_le, Z.ltb_lt. split.
  - intros [H0 H50]. split.
    + destruct Hor as [HM | (k & t & e & Hk & Ht & He & HM)]; [lia|].
      exists k, t, e. split; [lia|]. split; [exact Ht|].
      split; [exact He|]. rewrite <- HM. exact H0.
    + intros k t e Hk Ht He.
      assert (c_abs (s16 t - NT_POSITION_BIAS - e) <= M)
        by (apply (Hall k t e); [lia | exact Ht | exact He]).
      lia.
  - intros [(k & t & e & Hk & Ht & He & H0) H50]. split.
    + assert (c_abs (s16 t - NT_POSITION_BIAS - e) <= M)
        by (apply (Hall k t e); [lia | exact Ht | exact He]).
      lia.
    + destruct Hor as [HM | (k' & t' & e' & Hk' & Ht' & He' & HM)].
      * lia.
      * rewrite HM. apply (H50 k' t' e'); [lia | exact Ht' | exact He'].
Qed.

Lemma bus_extended_refl st : bus_extended st st.
Proof. exists []. rewrite app_nil_r. destruct st; reflexivity. Qed.

Lemma bus_extended_step op st st' :
  bus_extended (bus_op op st) st' -> bus_extended st st'.
Proof.
  intros [ops ->]. exists (op :: ops).
  cbn [bus_op mem_config g_buffer g_keyframe_memory g_config_memory
       g_isPlaying g_shouldStop g_extShouldQuit g_encPos parser to_pc bus
       outputs].
  rewrite <- app_assoc. reflexivity.
Qed.

Lemma keyframeReached_loop_total keyframe n : forall (j : nat) max_diff st,
  (j + n <= List.length (ticks keyframe))%nat ->
  exists st' M,
    keyframeReached_loop encoder keyframe n (Z.of_nat j) max_diff st
      = Some (st', M) /\
    bus_extended st st'.
Proof.
  induction n as [|n IH]; intros j max_diff st Hlen.
  - exists st, max_diff. split; [reflexivity | apply bus_extended_refl].
  - cbn [keyframeReached_loop]. unfold nt_encoderPosition.
    replace (Z.of_nat j + 1) with (Z.of_nat (S j)) by lia.
    destruct (encoder (bus st) (Z.of_nat (S j))) as [enc|].
    + rewrite Nat2Z.id.
      destruct (lookup_lt_is_Some_2 (ticks keyframe) j) as [t Ht]; [lia|].
      rewrite Ht.
      match goal with |- context [keyframeReached_loop _ _ _ _ ?m ?s] =>
        destruct (IH (S j) m s) as (st' & M & Hl & Hb); [lia|] end.
      exists st', M. split; [exact Hl|].
      apply (bus_extended_step _ _ _ Hb).
    + destruct (IH (S j) max_diff (bus_op (ReadEncoder (Z.of_nat (S j))) st))
        as (st' & M & Hl & Hb); [lia|].
      exists st', M. split; [exact Hl|].
      apply (bus_extended_step _ _ _ Hb).
Qed.

(** The start position test returns, and touches nothing but the motor
    bus and the digital output. *)
Lemma isInStartPosition_total st start :
  g_keyframe_memory st !! 0%nat = Some start ->
  List.length (ticks start) = 8%nat ->
  0 <= active_axes (mem_config st) <= NUM_AXES ->
  exists st' reached,
    motion_isInStartPosition encoder st = Some (st', reached) /\
    mem_config st' = mem_config st /\
    g_buffer st' = g_buffer st /\
    g_keyframe_memory st' = g_keyframe_memory st /\
    g_config_memory st' = g_config_memory st /\
    g_isPlaying st' = g_isPlaying st /\
    parser st' = parser st /\
    to_pc st' = to_pc st.
Proof.
  unfold NUM_AXES. intros Hs Ht Hax.
  unfold motion_isInStartPosition, mem_readKeyframe.
  change (Z.to_nat 0) with 0%nat. rewrite Hs.
  unfold motion_keyframeReached.
  replace (active_axes (mem_config st) >? 255) with false
    by (symmetry; rewrite Z.gtb_ltb; apply Z.ltb_ge; lia).
  destruct (keyframeReached_loop_total start
              (Z.to_nat (active_axes (mem_config st))) 0 (-1) st)
    as (st' & M & Hl & [ops ->]); [lia|].
  change (Z.of_nat 0) with 0 in Hl. rewrite Hl.
  eexists. eexists. split; [reflexivity|].
  destruct ((M >=? 0) && (M <? 50)); [|repeat split].
  unfold executeOutputCommand.
  destruct (output_command start =? OC_SET); [repeat split|].
  destruct (output_command start =? OC_RESET); repeat split.
Qed.

Lemma encode_Config_length (c : Config) :
  List.length (enc_to_mot c) = 8%nat ->
  List.length (encode_Config c) = 22%nat.
Proof.
  intros H. destruct c as [n a e l]. cbn [enc_to_mot] in H.
  do 8 (destruct e as [|? e]; [discriminate H|]).
  destruct e; [reflexivity|discriminate H].
Qed.

Lemma handle_config_write payload st :
  g_isPlaying st = false ->
  handleCommand encoder indeterminate motion_runSequence
                CMD_CONFIG payload sizeof_Config st =
  match motion_isInStartPosition encoder
          (set_mem_config (decode_Config payload) st) with
  | Some (st', _) => Some (writeAnswer (SimplePacket CMD_CONFIG) st')
  | None => None
  end.
Proof.
  intros Hp. unfold handleCommand, motion_isPlaying.
  change (CMD_CONFIG =? CMD_INIT) with false.
  change (CMD_CONFIG =? CMD_EXIT) with false.
  change (CMD_CONFIG =? CMD_SAVE_KEYFRAME) with false.
  change (CMD_CONFIG =? CMD_READ_KEYFRAME) with false.
  change (CMD_CONFIG =? CMD_CONFIG) with true.
  cbv iota. rewrite Hp. rewrite Z.eqb_refl. reflexivity.
Qed.

Lemma handle_config_query payload st :
  g_isPlaying st = false ->
  handleCommand encoder indeterminate motion_runSequence
                CMD_CONFIG payload 0 st =
  Some (writeAnswer (Packet CMD_CONFIG (encode_Config (mem_config st))) st).
Proof.
  intros Hp. unfold handleCommand, motion_isPlaying.
  change (CMD_CONFIG =? CMD_INIT) with false.
  change (CMD_CONFIG =? CMD_EXIT) with false.
  change (CMD_CONFIG =? CMD_SAVE_KEYFRAME) with false.
  change (CMD_CONFIG =? CMD_READ_KEYFRAME) with false.
  change (CMD_CONFIG =? CMD_CONFIG) with true.
  cbv iota. rewrite Hp. reflexivity.
Qed.

Lemma handle_read_keyframe payload st :
  handleCommand encoder indeterminate motion_runSequence
                CMD_READ_KEYFRAME payload sizeof_ReadKeyframe st =
  match mem_readKeyframe (byte_at payload 0) st with
  | Some kf =>
      Some (writeAnswer (Packet CMD_READ_KEYFRAME (encode_Keyframe kf)) st)
  | None => None
  end.
Proof. reflexivity. Qed.

(** X8. A CONFIG packet with a configuration, received by a device at rest,
    replaces the configuration in RAM, whatever number of keyframes it
    names, and is acknowledged; the stored configuration stays as it is.
    A CONFIG packet without payload that follows is answered with the
    configuration in RAM, so with the one just written. *)
Theorem config_written_then_queried (st : State) (c : Config)
        (start : Keyframe) :
  g_isPlaying st = false ->
  Decoder.parser_state (parser st) = Decoder.PS_START ->
  List.length (Decoder.payloadBuffer (parser st)) = 256%nat ->
  wf_Config c ->
  active_axes c <= NUM_AXES ->
  g_keyframe_memory st !! 0%nat = Some start ->
  List.length (ticks start) = 8%nat ->
  exists st',
    input_bytes encoder indeterminate motion_runSequence
      (Packet CMD_CONFIG (encode_Config c) ++ SimplePacket CMD_CONFIG) st
      = Some st' /\
    mem_config st' = c /\
    g_config_memory st' = g_config_memory st /\
    g_keyframe_memory st' = g_keyframe_memory st /\
    g_buffer st' = g_buffer st /\
    to_pc st' = to_pc st ++ SimplePacket CMD_CONFIG
                  ++ Packet CMD_CONFIG (encode_Config c).
Proof.
  intros Hidle Hst Hbuf Hwf Hax Hs Ht.
  pose proof Hwf as (Hnk & Haa & Hel & _ & _).
  assert (Hlen : List.length (encode_Config c) = 22%nat)
    by (apply encode_Config_length; exact Hel).
  rewrite input_bytes_app.
  destruct (input_bytes_packet st CMD_CONFIG (encode_Config c) Hst Hbuf)
    as (pi & pb & Hb & Htk & ->);
    [unfold CMD_CONFIG, CMD_COUNT; lia | lia |].
  rewrite Hlen in *. change (Z.of_nat 22) with sizeof_Config.
  rewrite handle_config_write by exact Hidle.
  assert (Hdec : decode_Config pb = c).
  { rewrite <- (take_drop 22 pb), Htk.
    apply WireFacts.decode_Config_encode. exact Hwf. }
  rewrite Hdec.
  match goal with |- context [motion_isInStartPosition _ ?s] =>
    destruct (isInStartPosition_total s start)
      as (st1 & reached & -> & Hc1 & Hb1 & Hk1 & Hm1 & Hp1 & Hpa1 & Hpc1)
  end; [exact Hs | exact Ht | unfold is_u16 in Haa; cbn; lia |].
  cbn [mem_config g_buffer g_keyframe_memory g_config_memory g_isPlaying
       parser to_pc set_mem_config set_parser] in Hc1, Hb1, Hk1, Hm1, Hp1,
       Hpa1, Hpc1.
  change (SimplePacket CMD_CONFIG) with (Packet CMD_CONFIG []) at 1.
  match goal with |- context [input_bytes _ _ _ _ ?s] =>
    destruct (input_bytes_packet s CMD_CONFIG [])
      as (pi2 & pb2 & Hb2 & _ & ->)
  end;
    [cbn [parser writeAnswer put_to_pc]; rewrite Hpa1; reflexivity
    | cbn [parser writeAnswer put_to_pc]; rewrite Hpa1; exact Hb
    | unfold CMD_CONFIG, CMD_COUNT; lia | cbn; lia |].
  change (Z.of_nat (List.length [])) with 0.
  rewrite handle_config_query
    by (cbn [g_isPlaying writeAnswer put_to_pc set_parser];
        rewrite Hp1; exact Hidle).
  eexists. split; [reflexivity|].
  cbn [mem_config g_buffer g_keyframe_memory g_config_memory to_pc
       writeAnswer put_to_pc set_parser].
  rewrite Hc1, Hb1, Hk1, Hm1, Hpc1, <- app_assoc.
  repeat split.
Qed.

(** X7. READ_KEYFRAME answers from the store, SAVE_KEYFRAME writes the RAM
    buffer: a keyframe that has been sent but not committed is not what a
    read of its index returns. *)
Theorem read_keyframe_answers_from_store (st : State) (index : Z)
        (kf stored : Keyframe) :
  g_isPlaying st = false ->
  Decoder.parser_state (parser st) = Decoder.PS_START ->
  List.length (Decoder.payloadBuffer (parser st)) = 256%nat ->
  0 <= index < MAX_KEYFRAMES ->
  wf_Keyframe kf ->
  g_keyframe_memory st !! Z.to_nat index = Some stored ->
  exists st',
    input_bytes encoder indeterminate motion_runSequence
      (Packet CMD_SAVE_KEYFRAME (index :: encode_Keyframe kf)
         ++ Packet CMD_READ_KEYFRAME [index]) st = Some st' /\
    g_buffer st' = <[Z.to_nat index := kf]> (g_buffer st) /\
    g_keyframe_memory st' = g_keyframe_memory st /\
    to_pc st' = to_pc st ++ SimplePacket CMD_SAVE_KEYFRAME
                  ++ Packet CMD_READ_KEYFRAME (encode_Keyframe stored).
Proof.
  intros Hidle Hst Hbuf Hidx Hwf Hstored.
  pose proof Hwf as (_ & Hticks & _ & _).
  assert (Hlen : List.length (index :: encode_Keyframe kf) = 20%nat).
  { cbn [List.length]. rewrite encode_Keyframe_length; auto. }
  rewrite input_bytes_app.
  destruct (input_bytes_packet st CMD_SAVE_KEYFRAME
              (index :: encode_Keyframe kf) Hst Hbuf)
    as (pi & pb & Hb & Ht & ->);
    [unfold CMD_SAVE_KEYFRAME, CMD_COUNT; lia | lia |].
  rewrite Hlen in *. change (Z.of_nat 20) with sizeof_SaveKeyframe.
  rewrite DeviceFacts.save_keyframe_idle by exact Hidle.
  assert (Hpb : pb = [index] ++ encode_Keyframe kf ++ drop 20 pb).
  { rewrite <- (take_drop 20 pb) at 1. rewrite Ht. reflexivity. }
  assert (Hi : byte_at pb 0 = index) by (rewrite Hpb; reflexivity).
  assert (Hk : decode_Keyframe pb 1 = kf).
  { rewrite Hpb. apply (WireFacts.decode_Keyframe_encode [index]). exact Hwf. }
  rewrite Hi, Hk.
  unfold motion_writeToBuffer.
  replace (index >=? MAX_KEYFRAMES) with false
    by (symmetry; rewrite Z.geb_leb; apply Z.leb_gt; lia).
  match goal with |- context [input_bytes _ _ _ _ ?s] =>
    destruct (input_bytes_packet s CMD_READ_KEYFRAME [index])
      as (pi2 & pb2 & Hb2 & Ht2 & ->)
  end;
    [reflexivity | exact Hb
    | unfold CMD_READ_KEYFRAME, CMD_COUNT; lia | cbn; lia |].
  change (Z.of_nat (List.length [index])) with sizeof_ReadKeyframe.
  rewrite handle_read_keyframe.
  assert (Hi2 : byte_at pb2 0 = index).
  { rewrite <- (take_drop 1 pb2). cbn [List.length] in Ht2. rewrite Ht2.
    reflexivity. }
  rewrite Hi2. unfold mem_readKeyframe.
  cbn [g_keyframe_memory writeAnswer put_to_pc set_parser set_g_buffer].
  rewrite Hstored.
  eexists. split; [reflexivity|].
  cbn [g_buffer g_keyframe_memory to_pc writeAnswer put_to_pc set_parser
       set_g_buffer].
  rewrite <- app_assoc. repeat split.
Qed.

End Dispatcher.

Lemma set_g_keyframe_memory_twice m1 m2 st :
  set_g_keyframe_memory m2 (set_g_keyframe_memory m1 st)
  = set_g_keyframe_memory m2 st.
Proof. reflexivity. Qed.

Lemma set_g_buffer_twice b1 b2 st :
  set_g_buffer b2 (set_g_buffer b1 st) = set_g_buffer b2 st.
Proof. reflexivity. Qed.

Lemma commit_loop_spec n : forall i st,
  0 <= i -> i + Z.of_nat n <= MAX_KEYFRAMES ->
  List.length (g_buffer st) = 128%nat ->
  List.length (g_keyframe_memory st) = 128%nat ->
  exists m,
    commit_loop n i st = Some (set_g_keyframe_memory m st) /\
    List.length m = 128%nat /\
    forall k, m !! k =
      if decide (Z.to_nat i <= k < Z.to_nat i + n)%nat
      then g_buffer st !! k else g_keyframe_memory st !! k.
Proof.
  unfold MAX_KEYFRAMES.
  induction n as [|n IH]; intros i st Hi Hn Hb Hm.
  - exists (g_keyframe_memory st). split; [destruct st; reflexivity|].
    split; [exact Hm|]. intros k. rewrite decide_False by lia. reflexivity.
  - cbn [commit_loop].
    destruct (lookup_lt_is_Some_2 (g_buffer st) (Z.to_nat i)) as [kf Hkf];
      [lia|].
    rewrite Hkf. rewrite (u8_id i) by lia.
    unfold mem_saveKeyframe, MAX_KEYFRAMES.
    replace (i <? 128) with true by (symmetry; apply Z.ltb_lt; lia).
    destruct (IH (i + 1)
                (set_g_keyframe_memory
                   (<[Z.to_nat i := kf]> (g_keyframe_memory st)) st))
      as (m & Hc & Hlen & Hk);
      [lia | lia | exact Hb | cbn; rewrite length_insert; exact Hm |].
    exists m. rewrite Hc, set_g_keyframe_memory_twice.
    split; [reflexivity|]. split; [exact Hlen|].
    intros k. rewrite Hk.
    replace (Z.to_nat (i + 1)) with (S (Z.to_nat i)) by lia.
    change (g_buffer (set_g_keyframe_memory _ st)) with (g_buffer st).
    change (g_keyframe_memory (set_g_keyframe_memory ?m st)) with m.
    destruct (decide (k = Z.to_nat i)) as [->|Hne].
    + rewrite decide_False by lia. rewrite decide_True by lia.
      rewrite list_lookup_insert_eq by lia. symmetry. exact Hkf.
    + rewrite list_lookup_insert_ne by (intros E; apply Hne; symmetry; exact E).
      destruct (decide (S (Z.to_nat i) <= k < S (Z.to_nat i) + n)%nat).
      * rewrite decide_True by lia. reflexivity.
      * rewrite decide_False by lia. reflexivity.
Qed.

(** X9. COMMIT copies the first [num_keyframes] keyframes of the RAM buffer to
    the store and the RAM configuration to the stored one; the keyframes
    stored behind them, the buffer, and both links stay as they are.  It
    works for every count up to [MAX_KEYFRAMES]. *)
Theorem commit_stores_buffer_prefix (st : State) :
  arrays_ok st ->
  0 <= num_keyframes (mem_config st) <= MAX_KEYFRAMES ->
  exists st',
    motion_commit st = Some st' /\
    g_config_memory st' = mem_config st /\
    mem_config st' = mem_config st /\
    g_buffer st' = g_buffer st /\
    to_pc st' = to_pc st /\ bus st' = bus st /\
    List.length (g_keyframe_memory st') = 128%nat /\
    forall k,
      g_keyframe_memory st' !! k =
        if decide (Z.of_nat k < num_keyframes (mem_config st))
        then g_buffer st !! k else g_keyframe_memory st !! k.
Proof.
  intros [Hb Hm] Hn. unfold motion_commit.
  destruct (commit_loop_spec (Z.to_nat (num_keyframes (mem_config st))) 0 st)
    as (m & -> & Hlen & Hk); [lia | lia | exact Hb | exact Hm |].
  eexists. split; [reflexivity|]. cbn.
  repeat (split; [reflexivity|]). split; [exact Hlen|].
  intros k. rewrite Hk. change (Z.to_nat 0) with 0%nat.
  destruct (decide (Z.of_nat k < num_keyframes (mem_config st))).
  - rewrite decide_True by lia. reflexivity.
  - rewrite decide_False by lia. reflexivity.
Qed.

Lemma load_loop_spec n : forall i st,
  0 <= i -> i + Z.of_nat n <= MAX_KEYFRAMES ->
  List.length (g_buffer st) = 128%nat ->
  List.length (g_keyframe_memory st) = 128%nat ->
  exists b,
    load_loop n i st = Some (set_g_buffer b st) /\
    List.length b = 128%nat /\
    forall k, b !! k =
      if decide (Z.to_nat i <= k < Z.to_nat i + n)%nat
      then g_keyframe_memory st !! k else g_buffer st !! k.
Proof.
  unfold MAX_KEYFRAMES.
  induction n as [|n IH]; intros i st Hi Hn Hb Hm.
  - exists (g_buffer st). split; [destruct st; reflexivity|].
    split; [exact Hb|]. intros k. rewrite decide_False by lia. reflexivity.
  - cbn [load_loop]. unfold mem_readKeyframe. rewrite (u8_id i) by lia.
    destruct (lookup_lt_is_Some_2 (g_keyframe_memory st) (Z.to_nat i))
      as [kf Hkf]; [lia|].
    rewrite Hkf. unfold MAX_KEYFRAMES.
    replace (i <? 128) with true by (symmetry; apply Z.ltb_lt; lia).
    destruct (IH (i + 1)
                (set_g_buffer (<[Z.to_nat i := kf]> (g_buffer st)) st))
      as (b & Hc & Hlen & Hk);
      [lia | lia | cbn; rewrite length_insert; exact Hb | exact Hm |].
    exists b. rewrite Hc, set_g_buffer_twice.
    split; [reflexivity|]. split; [exact Hlen|].
    intros k. rewrite Hk.
    replace (Z.to_nat (i + 1)) with (S (Z.to_nat i)) by lia.
    change (g_keyframe_memory (set_g_buffer _ st)) with (g_keyframe_memory st).
    change (g_buffer (set_g_buffer ?m st)) with m.
    destruct (decide (k = Z.to_nat i)) as [->|Hne].
    + rewrite decide_False by lia. rewrite decide_True by lia.
      rewrite list_lookup_insert_eq by lia. symmetry. exact Hkf.
    + rewrite list_lookup_insert_ne by (intros E; apply Hne; symmetry; exact E).
      destruct (decide (S (Z.to_nat i) <= k < S (Z.to_nat i) + n)%nat).
      * rewrite decide_True by lia. reflexivity.
      * rewrite decide_False by lia. reflexivity.
Qed.

Lemma mem_init_valid st :
  num_keyframes (mem_config (mem_init st)) < MAX_KEYFRAMES /\
  active_axes (mem_config (mem_init st)) <> 65535 /\
  g_buffer (mem_init st) = g_buffer st /\
  g_keyframe_memory (mem_init st) = g_keyframe_memory st /\
  g_config_memory (mem_init st) = g_config_memory st /\
  bus (mem_init st) = bus st.
Proof.
  unfold mem_init.
  destruct (active_axes (g_config_memory st) =? 65535) eqn:Ha;
    [cbn; repeat split; unfold MAX_KEYFRAMES; lia|].
  destruct (num_keyframes (g_config_memory st) >=? MAX_KEYFRAMES) eqn:Hn;
    [cbn; repeat split; unfold MAX_KEYFRAMES; lia|].
  cbn. rewrite Z.geb_leb in Hn. apply Z.leb_gt in Hn. apply Z.eqb_neq in Ha.
  repeat split; assumption.
Qed.

(** X10. Loading the sequence at boot stays inside the keyframe store and the
    RAM buffer whatever the stored configuration holds, and leaves a RAM
    configuration with fewer than [MAX_KEYFRAMES] keyframes, the first
    of the buffer being the stored ones. *)
Theorem boot_load_stays_in_bounds (st : State) :
  arrays_ok st ->
  exists st',
    motion_loadSequence st = Some st' /\
    arrays_ok st' /\
    num_keyframes (mem_config st') < MAX_KEYFRAMES /\
    g_keyframe_memory st' = g_keyframe_memory st /\
    bus st' = bus st /\
    forall k, Z.of_nat k < num_keyframes (mem_config st') ->
      g_buffer st' !! k = g_keyframe_memory st !! k.
Proof.
  intros [Hb Hm]. unfold motion_loadSequence.
  destruct (mem_init_valid st) as (Hn & _ & Eb & Em & _ & Ebus).
  destruct (load_loop_spec (Z.to_nat (num_keyframes (mem_config (mem_init st))))
              0 (mem_init st))
    as (b & -> & Hlen & Hk);
    [lia | unfold MAX_KEYFRAMES in *; lia | rewrite Eb; exact Hb
     | rewrite Em; exact Hm |].
  eexists. split; [reflexivity|]. unfold arrays_ok.
  cbn [g_buffer g_keyframe_memory mem_config bus set_g_buffer].
  split; [split; [exact Hlen | rewrite Em; exact Hm]|].
  split; [exact Hn|]. split; [exact Em|]. split; [exact Ebus|].
  intros k Hlt. rewrite Hk, Em. change (Z.to_nat 0) with 0%nat.
  rewrite decide_True by lia. reflexivity.
Qed.

(** X11. What COMMIT has stored comes back at the next boot: after a power
    cycle, in which only the store and the stored configuration survive,
    loading the sequence restores the committed configuration and the
    committed keyframes. *)
Theorem commit_then_boot_restores (st st1 st2 : State) :
  arrays_ok st ->
  0 <= num_keyframes (mem_config st) < MAX_KEYFRAMES ->
  active_axes (mem_config st) <> 65535 ->
  motion_commit st = Some st1 ->
  g_keyframe_memory st2 = g_keyframe_memory st1 ->
  g_config_memory st2 = g_config_memory st1 ->
  List.length (g_buffer st2) = 128%nat ->
  exists st3,
    motion_loadSequence st2 = Some st3 /\
    mem_config st3 = mem_config st /\
    forall k, Z.of_nat k < num_keyframes (mem_config st) ->
      g_buffer st3 !! k = g_buffer st !! k.
Proof.
  intros Hok Hn Ha Hc Em Ec Hb2.
  destruct Hok as [Hb Hm]. unfold motion_commit in Hc.
  destruct (commit_loop_spec (Z.to_nat (num_keyframes (mem_config st))) 0 st)
    as (m & Hl & Hlen & Hk); [lia | lia | exact Hb | exact Hm |].
  rewrite Hl in Hc. injection Hc as <-.
  cbn [g_keyframe_memory g_config_memory mem_saveConfig set_g_config_memory
       set_g_keyframe_memory mem_config] in Em, Ec.
  assert (Hcfg : g_config_memory st2 = mem_config st) by exact Ec.
  clear Ec.
  assert (Hinit : mem_config (mem_init st2) = mem_config st).
  { unfold mem_init. rewrite Hcfg.
    replace (active_axes (mem_config st) =? 65535) with false
      by (symmetry; apply Z.eqb_neq; exact Ha).
    replace (num_keyframes (mem_config st) >=? MAX_KEYFRAMES) with false
      by (symmetry; rewrite Z.geb_leb; apply Z.leb_gt; lia).
    reflexivity. }
  unfold motion_loadSequence.
  destruct (mem_init_valid st2) as (_ & _ & Eb & Em2 & _ & _).
  destruct (load_loop_spec (Z.to_nat (num_keyframes (mem_config (mem_init st2))))
              0 (mem_init st2))
    as (b & -> & Hlenb & Hkb);
    [lia | rewrite Hinit; lia | rewrite Eb; exact Hb2
     | rewrite Em2, Em; exact Hlen |].
  eexists. split; [reflexivity|].
  cbn [g_buffer g_keyframe_memory mem_config bus set_g_buffer].
  split; [exact Hinit|].
  intros k Hlt. rewrite Hkb, Hinit, Em2, Em, Hk.
  change (Z.to_nat 0) with 0%nat.
  rewrite decide_True by lia. rewrite decide_True by lia. reflexivity.
Qed.

Import DeviceScenario CoverageScenario.

Lemma save_keyframe_packet_stored_witness :
  exists st',
    input_bytes no_encoder zero_memory no_playback
      (Packet CMD_SAVE_KEYFRAME (5 :: encode_Keyframe kf_move)) st_idle
      = Some st' /\
    g_buffer st' = <[Z.to_nat 5 := kf_move]> (g_buffer st_idle) /\
    to_pc st' = to_pc st_idle ++ SimplePacket CMD_SAVE_KEYFRAME /\
    g_keyframe_memory st' = g_keyframe_memory st_idle /\
    g_config_memory st' = g_config_memory st_idle /\
    mem_config st' = mem_config st_idle.
Proof.
  apply (save_keyframe_packet_stored no_encoder zero_memory no_playback
           st_idle 5 kf_move).
  - reflexivity.
  - reflexivity.
  - reflexivity.
  - vm_compute. split; [discriminate | reflexivity].
  - unfold wf_Keyframe, is_u16. vm_compute.
    repeat split; try discriminate; try reflexivity;
      repeat constructor; discriminate.
Defined.

Lemma feedback_while_playing_uses_cache_witness :
  exists positions,
    writeFeedbackPacket no_encoder zero_memory CMD_FEEDBACK st_playing =
      Some (put_to_pc
              (Packet CMD_FEEDBACK
                 ([active_axes (mem_config st_playing); FF_PLAYING] ++
                  concat (map (fun z => u16_bytes (u16 z)) positions)))
              st_playing) /\
    List.length positions = 8%nat /\
    forall k, (k < 8)%nat ->
      positions !! k =
        Some (if decide (Z.of_nat k < active_axes (mem_config st_playing))
              then default 0 (g_encPos st_playing !! k)
              else zero_memory k).
Proof.
  apply (feedback_while_playing_uses_cache no_encoder zero_memory
           CMD_FEEDBACK st_playing).
  - reflexivity.
  - vm_compute. split; discriminate.
Defined.

Lemma keyframe_not_reached_without_encoders_witness :
  exists st',
    motion_keyframeReached no_encoder kf_move st_idle = Some (st', false) /\
    outputs st' = outputs st_idle /\
    List.length (bus st') =
      (List.length (bus st_idle)
       + Z.to_nat (active_axes (mem_config st_idle)))%nat.
Proof.
  apply (keyframe_not_reached_without_encoders no_encoder kf_move st_idle).
  - reflexivity.
  - vm_compute. split; discriminate.
Defined.

Lemma keyframe_reached_iff_witness :
  exists st' reached,
    motion_keyframeReached (fun _ => first_axis_at_1000) kf_at_1010
                           (set_mem_config cfg_large st_idle)
      = Some (st', reached) /\
    (reached = true <->
     (exists k t e,
        Z.of_nat k < active_axes (mem_config (set_mem_config cfg_large st_idle)) /\
        ticks kf_at_1010 !! k = Some t /\
        first_axis_at_1000 (Z.of_nat k + 1) = Some e /\
        0 <= c_abs (s16 t - NT_POSITION_BIAS - e)) /\
     (forall k t e,
        Z.of_nat k < active_axes (mem_config (set_mem_config cfg_large st_idle)) ->
        ticks kf_at_1010 !! k = Some t ->
        first_axis_at_1000 (Z.of_nat k + 1) = Some e ->
        c_abs (s16 t - NT_POSITION_BIAS - e) < 50)).
Proof.
  apply (keyframe_reached_iff (fun _ => first_axis_at_1000)
           first_axis_at_1000 kf_at_1010 (set_mem_config cfg_large st_idle)).
  - reflexivity.
  - vm_compute. split; discriminate.
  - reflexivity.
Defined.

Lemma config_written_then_queried_witness :
  exists st',
    input_bytes no_encoder zero_memory no_playback
      (Packet CMD_CONFIG (encode_Config cfg_large) ++ SimplePacket CMD_CONFIG)
      st_idle = Some st' /\
    mem_config st' = cfg_large /\
    g_config_memory st' = g_config_memory st_idle /\
    g_keyframe_memory st' = g_keyframe_memory st_idle /\
    g_buffer st' = g_buffer st_idle /\
    to_pc st' = to_pc st_idle ++ SimplePacket CMD_CONFIG
                  ++ Packet CMD_CONFIG (encode_Config cfg_large).
Proof.
  apply (config_written_then_queried no_encoder zero_memory no_playback
           st_idle cfg_large kf_zero).
  - reflexivity.
  - reflexivity.
  - reflexivity.
  - unfold wf_Config, is_u16. vm_compute.
    repeat split; try discriminate; try reflexivity;
      repeat constructor; discriminate.
  - vm_compute. discriminate.
  - reflexivity.
  - reflexivity.
Defined.

Lemma read_keyframe_answers_from_store_witness :
  exists st',
    input_bytes no_encoder zero_memory no_playback
      (Packet CMD_SAVE_KEYFRAME (5 :: encode_Keyframe kf_move)
         ++ Packet CMD_READ_KEYFRAME [5]) st_idle = Some st' /\
    g_buffer st' = <[Z.to_nat 5 := kf_move]> (g_buffer st_idle) /\
    g_keyframe_memory st' = g_keyframe_memory st_idle /\
    to_pc st' = to_pc st_idle ++ SimplePacket CMD_SAVE_KEYFRAME
                  ++ Packet CMD_READ_KEYFRAME (encode_Keyframe kf_zero).
Proof.
  apply (read_keyframe_answers_from_store no_encoder zero_memory no_playback
           st_idle 5 kf_move kf_zero).
  - reflexivity.
  - reflexivity.
  - reflexivity.
  - vm_compute. split; [discriminate | reflexivity].
  - unfold wf_Keyframe, is_u16. vm_compute.
    repeat split; try discriminate; try reflexivity;
      repeat constructor; discriminate.
  - reflexivity.
Defined.

Lemma commit_stores_buffer_prefix_witness :
  exists st',
    motion_commit st_edited = Some st' /\
    g_config_memory st' = mem_config st_edited /\
    mem_config st' = mem_config st_edited /\
    g_buffer st' = g_buffer st_edited /\
    to_pc st' = to_pc st_edited /\ bus st' = bus st_edited /\
    List.length (g_keyframe_memory st') = 128%nat /\
    forall k,
      g_keyframe_memory st' !! k =
        if decide (Z.of_nat k < num_keyframes (mem_config st_edited))
        then g_buffer st_edited !! k else g_keyframe_memory st_edited !! k.
Proof.
  apply (commit_stores_buffer_prefix st_edited).
  - split; reflexivity.
  - vm_compute. split; discriminate.
Defined.

Lemma boot_load_stays_in_bounds_witness :
  exists st',
    motion_loadSequence (boot_state (stored_config 129 4)) = Some st' /\
    arrays_ok st' /\
    num_keyframes (mem_config st') < MAX_KEYFRAMES /\
    g_keyframe_memory st'
      = g_keyframe_memory (boot_state (stored_config 129 4)) /\
    bus st' = bus (boot_state (stored_config 129 4)) /\
    forall k, Z.of_nat k < num_keyframes (mem_config st') ->
      g_buffer st' !! k
        = g_keyframe_memory (boot_state (stored_config 129 4)) !! k.
Proof.
  apply (boot_load_stays_in_bounds (boot_state (stored_config 129 4))).
  split; reflexivity.
Defined.

Lemma commit_then_boot_restores_witness :
  exists st3,
    motion_loadSequence
      (set_g_buffer (replicate 128 kf_zero)
         (mem_saveConfig
            (set_g_keyframe_memory
               (<[0%nat := kf_move]> (g_keyframe_memory st_edited)) st_edited)))
      = Some st3 /\
    mem_config st3 = mem_config st_edited /\
    forall k, Z.of_nat k < num_keyframes (mem_config st_edited) ->
      g_buffer st3 !! k = g_buffer st_edited !! k.
Proof.
  apply (commit_then_boot_restores st_edited
           (mem_saveConfig
              (set_g_keyframe_memory
                 (<[0%nat := kf_move]> (g_keyframe_memory st_edited))
                 st_edited))).
  - split; reflexivity.
  - vm_compute. split; [discriminate | reflexivity].
  - vm_compute. discriminate.
  - reflexivity.
  - reflexivity.
  - reflexivity.
  - reflexivity.
Defined.

End DeviceLoopFacts.

Module PassthroughMoreFacts.
Import Passthrough PassthroughFacts.

Lemma matcher_plain buf : forall sent,
  Forall (fun c => c <> 255) buf ->
  matcher buf 0 sent = {| to_bus := sent ++ buf; extended := false |}.
Proof.
  induction buf as [|c buf IH]; intros sent Hall.
  - cbn [matcher]. rewrite app_nil_r. reflexivity.
  - inversion Hall as [|? ? Hc Hrest]; subst.
    rewrite matcher_mismatch.
    + rewrite IH by exact Hrest. cbn [take firstn app].
      rewrite <- app_assoc. reflexivity.
    + rewrite initPacket_bytes. cbn. intros E. injection E as E.
      apply Hc. symmetry. exact E.
Qed.

Lemma matcher_app_plain buf : forall rest sent,
  Forall (fun c => c <> 255) buf ->
  matcher (buf ++ rest) 0 sent = matcher rest 0 (sent ++ buf).
Proof.
  induction buf as [|c buf IH]; intros rest sent Hall.
  - rewrite app_nil_r. reflexivity.
  - inversion Hall as [|? ? Hc Hrest]; subst. cbn [app].
    rewrite matcher_mismatch.
    + rewrite IH by exact Hrest. cbn [take firstn app].
      rewrite <- app_assoc. reflexivity.
    + rewrite initPacket_bytes. cbn. intros E. injection E as E.
      apply Hc. symmetry. exact E.
Qed.

(** X19. Host bytes that hold no 0xFF pass to the bus as they are and never
    switch the device to extended mode.  A proper prefix of the INIT
    packet at the end of the burst is held back and, the pass ending
    there, never sent. *)
Theorem plain_burst_forwarded (buf : list Z) (k : nat) :
  Forall (fun c => c <> 255) buf ->
  (k < 6)%nat ->
  pass buf = {| to_bus := buf; extended := false |} /\
  pass (buf ++ take k initPacket) = {| to_bus := buf; extended := false |}.
Proof.
  intros Hall Hk. unfold pass. split.
  - rewrite matcher_plain by exact Hall. reflexivity.
  - rewrite matcher_app_plain by exact Hall. cbn [app].
    rewrite <- (app_nil_r (take k initPacket)).
    change (take k initPacket) with (take k (drop 0 initPacket)).
    rewrite matcher_prefix by lia. reflexivity.
Qed.

Import DeviceScenario.

Lemma partial_match_replayed_witness :
  pass (take 2 initPacket ++ [7]) =
    {| to_bus := take 2 initPacket ++ [7]; extended := false |}.
Proof.
  apply (partial_match_replayed 2 7).
  - lia.
  - vm_compute. discriminate.
Defined.

Lemma plain_burst_forwarded_witness :
  pass [35; 49; 65; 13] = {| to_bus := [35; 49; 65; 13]; extended := false |} /\
  pass ([35; 49; 65; 13] ++ take 3 initPacket)
    = {| to_bus := [35; 49; 65; 13]; extended := false |}.
Proof.
  apply (plain_burst_forwarded [35; 49; 65; 13] 3).
  - repeat constructor; discriminate.
  - lia.
Defined.

End PassthroughMoreFacts.

Module HostMoreFacts.
Import Host Invariants.

Local Open Scope Q_scope.

Lemma fold_max_spec (g : string -> Q -> Q) (l : list (string * Q)) :
  forall d0,
  let r := foldl (fun distance '(key, a) =>
                    if Qlt_le_dec distance (g key a) then g key a
                    else distance) d0 l in
  d0 <= r /\
  (r = d0 \/ exists key a, (key, a) ∈ l /\ r = g key a) /\
  (forall key a, (key, a) ∈ l -> g key a <= r).
Proof.
  induction l as [|[key a] l IH]; intros d0; cbn [foldl].
  - split; [apply Qle_refl|]. split; [left; reflexivity|].
    intros k b Hin. inversion Hin.
  - destruct (IH (if Qlt_le_dec d0 (g key a) then g key a else d0))
      as (Hge & Hor & Hall).
    assert (Hstep : d0 <= (if Qlt_le_dec d0 (g key a) then g key a else d0)
                    /\ g key a <= (if Qlt_le_dec d0 (g key a) then g key a
                                   else d0)).
    { destruct (Qlt_le_dec d0 (g key a)) as [Hlt|Hle].
      - split; [apply Qlt_le_weak; exact Hlt | apply Qle_refl].
      - split; [apply Qle_refl | exact Hle]. }
    split; [eapply Qle_trans; [apply Hstep | exact Hge]|]. split.
    + destruct Hor as [Hr | (k & b & Hin & Hr)].
      * destruct (Qlt_le_dec d0 (g key a)).
        -- right. exists key, a. split; [left | exact Hr].
        -- left. exact Hr.
      * right. exists k, b. split; [right; exact Hin | exact Hr].
    + intros k b Hin. apply elem_of_cons in Hin as [E | Hin].
      * injection E as -> ->. eapply Qle_trans; [apply Hstep | exact Hge].
      * apply Hall. exact Hin.
Qed.

(** X25. [Keyframe::distance] is the maximum norm over the joints of the
    keyframe it is called on: it is never negative, no joint differs by
    more, and unless it is 0 some joint differs by exactly that much.  A
    joint the other keyframe lacks counts with the angle 0, and joints
    that only the other keyframe has are not looked at.  The distance of
    a keyframe to itself is 0. *)
Theorem distance_is_max_norm (this kf : Keyframe) :
  0 <= distance this kf /\
  (forall key a, jointAngles this !! key = Some a ->
     Qabs (a - default 0 (jointAngles kf !! key)) <= distance this kf) /\
  (distance this kf = 0 \/
   exists key a, jointAngles this !! key = Some a /\
     distance this kf = Qabs (a - default 0 (jointAngles kf !! key))) /\
  distance this this == 0.
Proof.
  pose proof (fold_max_spec
                (fun key a => Qabs (a - default 0 (jointAngles kf !! key)))
                (map_to_list (jointAngles this)) 0) as (Hge & Hor & Hall).
  split; [exact Hge|]. split.
  - intros key a Hk. apply Hall. apply elem_of_map_to_list. exact Hk.
  - split.
    + destruct Hor as [H0 | (key & a & Hin & Hr)].
      * left. exact H0.
      * right. exists key, a. split; [|exact Hr].
        apply elem_of_map_to_list. exact Hin.
    + pose proof (fold_max_spec
                (fun key a => Qabs (a - default 0 (jointAngles this !! key)))
                (map_to_list (jointAngles this)) 0) as (_ & Hor' & _).
      destruct Hor' as [H0 | (key & a & Hin & Hr)].
      * unfold distance. rewrite H0. reflexivity.
      * unfold distance. rewrite Hr.
        apply elem_of_map_to_list in Hin. rewrite Hin. cbn [default].
        assert (E : a - a == 0) by ring.
        rewrite (Qabs_wd _ _ E). reflexivity.
Qed.

Lemma set_velocities_length s items :
  List.length (set_velocities s items) = List.length items.
Proof.
  induction items as [|it rest IH]; [reflexivity|].
  cbn [set_velocities]. destruct rest as [|next rest']; [reflexivity|].
  cbn [List.length] in *. rewrite IH. reflexivity.
Qed.

Lemma set_velocities_chained s items : forall before,
  chained before items -> chained before (set_velocities s items).
Proof.
  induction items as [|it rest IH]; intros before Hc; [exact I|].
  cbn [set_velocities]. destruct rest as [|next rest']; [exact Hc|].
  destruct Hc as [Ht Hrest]. split; [exact Ht|].
  cbn [absoluteTime]. apply IH. exact Hrest.
Qed.

Lemma build_timeline_length s keyframes : forall current_abs,
  keyframes <> [] ->
  List.length (build_timeline s keyframes current_abs) =
    (List.length keyframes - 1 + count_holds keyframes)%nat.
Proof.
  induction keyframes as [|kf rest IH]; intros current_abs Hne;
    [contradiction|].
  cbn [build_timeline count_holds]. unfold hold_items.
  destruct rest as [|next rest'].
  - destruct (Qlt_le_dec 0 (getPause kf)); reflexivity.
  - rewrite length_app. cbn [List.length].
    rewrite IH by discriminate.
    destruct (Qlt_le_dec 0 (getPause kf)); cbn [List.length count_holds]; lia.
Qed.

Lemma chained_app a : forall before b,
  chained before a ->
  chained (match last a with Some it => absoluteTime it | None => before end) b ->
  chained before (a ++ b).
Proof.
  induction a as [|it a IH]; intros before b Ha Hb; [exact Hb|].
  destruct Ha as [Ht Ha]. split; [exact Ht|].
  apply IH; [exact Ha|].
  destruct a as [|it' a']; [exact Hb|].
  rewrite last_cons_cons in Hb.
  destruct (last (it' :: a')) eqn:E; [exact Hb|].
  apply last_None in E. discriminate E.
Qed.

Lemma build_timeline_chained s keyframes : forall current_abs,
  chained current_abs (build_timeline s keyframes current_abs).
Proof.
  induction keyframes as [|kf rest IH]; intros current_abs; [exact I|].
  cbn [build_timeline]. unfold hold_items.
  destruct rest as [|next rest'].
  - destruct (Qlt_le_dec 0 (getPause kf)); [split; [reflexivity|exact I]|exact I].
  - destruct (Qlt_le_dec 0 (getPause kf)).
    + split; [reflexivity|]. split; [reflexivity|]. apply IH.
    + split; [reflexivity|]. apply IH.
Qed.

(** X26. The timeline built from two or more keyframes over one set of joints
    has the head item, one item for every further keyframe, one more for
    every keyframe with a pause, and a closing item when the motion is
    looped; the absolute time of every item is that of the item before it
    plus its own relative time, starting from 0 at the head. *)
Theorem timeline_shape (speedLimit : Q) (looped : bool)
        (old : list KeyframePlayerItem) (keyframes : list Keyframe) :
  (2 <= List.length keyframes)%nat ->
  same_joints keyframes ->
  List.length (playTheseFrames speedLimit looped old keyframes) =
    (List.length keyframes + count_holds keyframes
     + (if looped then 1 else 0))%nat /\
  chained 0 (playTheseFrames speedLimit looped old keyframes).
Proof.
  intros Hlen _.
  destruct keyframes as [|first [|second rest]]; cbn in Hlen; try lia.
  unfold playTheseFrames. split.
  - rewrite set_velocities_length. cbn [List.length].
    rewrite length_app, build_timeline_length by discriminate.
    cbn [List.length]. destruct looped; cbn [List.length]; lia.
  - apply set_velocities_chained. split; [reflexivity|].
    cbn [absoluteTime]. apply chained_app.
    + apply build_timeline_chained.
    + destruct looped; [|exact I]. split; [|exact I].
      reflexivity.
Qed.

Local Close Scope Q_scope.




Import HostCoverageScenario.

Local Open Scope Q_scope.

Lemma timeline_shape_witness :
  List.length (playTheseFrames 4 true [] motion_three) =
    (List.length motion_three + count_holds motion_three + 1)%nat /\
  chained 0 (playTheseFrames 4 true [] motion_three).
Proof.
  apply (timeline_shape 4 true [] motion_three).
  - vm_compute. lia.
  - unfold same_joints, motion_three. intros k1 k2 H1 H2 key.
    repeat (apply elem_of_cons in H1 as [-> | H1]);
      repeat (apply elem_of_cons in H2 as [-> | H2]);
      try (apply elem_of_nil in H1; contradiction);
      try (apply elem_of_nil in H2; contradiction);
      unfold HostScenario.pose; cbn [jointAngles];
      (destruct (decide ("Joint1"%string = key)) as [<-|Hne];
       [rewrite !lookup_singleton_eq; split; eauto
       |rewrite !lookup_singleton_ne by exact Hne; reflexivity]).
Defined.


End HostMoreFacts.

Module HostTxFacts.
Import Host HostTx.

Local Open Scope Q_scope.





Local Close Scope Q_scope.




Import HostCoverageScenario.

Local Open Scope Q_scope.



End HostTxFacts.

Module NanoJFacts.
Import NanoJ.

Lemma s32_id z : -2147483648 <= z < 2147483648 -> s32 z = z.
Proof. intros H. unfold s32. rewrite Z.mod_small by lia. lia. Qed.

Lemma asr_div x n : 0 <= n -> asr x n = x / 2 ^ n.
Proof. intros H. unfold asr. apply Z.shiftr_div_pow2. exact H. Qed.

Lemma sign_bit z :
  -2147483648 <= z < 2147483648 ->
  Z.land (asr z 31) 1 = if z <? 0 then 1 else 0.
Proof.
  intros H. unfold asr. rewrite Z.shiftr_div_pow2 by lia.
  change (2 ^ 31) with 2147483648.
  destruct (Z.ltb_spec z 0).
  - replace (z / 2147483648) with (-1)
      by (apply Z.div_unique with (r := z + 2147483648); lia).
    reflexivity.
  - rewrite Z.div_small by lia. reflexivity.
Qed.

(** The pass with the shifts and the sign-bit test read as arithmetic. *)
Lemma position_control_arith (maxSpeed2 maxSpeed enc mot : Z) (v : Vars) :
  readings_in_range maxSpeed2 maxSpeed enc mot ->
  let d := (maxSpeed2 - POSITION_BIAS - enc) / 4 in
  let m := d * (if maxSpeed / 32 <? Z.abs d then 2 else 1) in
  let move := if (m >? 0) && (m <? 5) then 5
              else if (m <? 0) && (m >? -5) then -5 else m in
  position_control maxSpeed2 maxSpeed enc mot v =
    if Z.abs d <? 3 then
      if holdingPosition v =? 0 then
        if Z.abs d <? 2
        then {| holdingPosition := 1;
                driveTarget := if d <? 0 then mot - 4 else mot |}
        else {| holdingPosition := 0; driveTarget := move + mot |}
      else v
    else {| holdingPosition := 0; driveTarget := move + mot |}.
Proof.
  unfold readings_in_range, POSITION_BIAS.
  intros (H2 & Hs & He & Hm). cbv zeta.
  unfold position_control, POSITION_BIAS, ENCODER_SHIFT.
  rewrite (s32_id (maxSpeed2 - 16384)) by lia.
  rewrite (s32_id (maxSpeed2 - 16384 - enc)) by lia.
  rewrite (asr_div _ 2), (asr_div _ 5) by lia.
  change (2 ^ 2) with 4. change (2 ^ 5) with 32.
  set (d := (maxSpeed2 - 16384 - enc) / 4).
  assert (Hd : -24576 <= d <= 24576).
  { unfold d. split.
    - apply Z.div_le_lower_bound; lia.
    - apply Z.div_le_upper_bound; lia. }
  assert (Habs : (if d >? 0 then d else s32 (- d)) = Z.abs d).
  { rewrite (s32_id (- d)) by lia.
    destruct (d >? 0) eqn:E; rewrite Z.gtb_ltb in E;
      [apply Z.ltb_lt in E | apply Z.ltb_ge in E]; lia. }
  rewrite Habs.
  assert (Hts : 0 <= maxSpeed / 32 < 67108864).
  { split; [apply Z.div_pos; lia | apply Z.div_lt_upper_bound; lia]. }
  rewrite (s32_id (maxSpeed / 32 - Z.abs d)) by lia.
  rewrite sign_bit by lia.
  assert (Hfar : (if maxSpeed / 32 - Z.abs d <? 0 then 1 else 0)
                 = (if maxSpeed / 32 <? Z.abs d then 1 else 0)).
  { destruct (Z.ltb_spec (maxSpeed / 32 - Z.abs d) 0);
      destruct (Z.ltb_spec (maxSpeed / 32) (Z.abs d)); lia. }
  rewrite Hfar.
  assert (Hshl : shl d (if maxSpeed / 32 <? Z.abs d then 1 else 0)
                 = d * (if maxSpeed / 32 <? Z.abs d then 2 else 1)).
  { unfold shl. destruct (maxSpeed / 32 <? Z.abs d).
    - rewrite Z.shiftl_mul_pow2 by lia. change (2 ^ 1) with 2.
      apply s32_id. lia.
    - rewrite Z.shiftl_0_r. rewrite Z.mul_1_r. apply s32_id. lia. }
  rewrite Hshl.
  set (m := d * (if maxSpeed / 32 <? Z.abs d then 2 else 1)).
  assert (Hmr : -49152 <= m <= 49152).
  { unfold m. destruct (maxSpeed / 32 <? Z.abs d); lia. }
  set (move := if (m >? 0) && (m <? 5) then 5
               else if (m <? 0) && (m >? -5) then -5 else m).
  assert (Hmove : -49152 <= move <= 49152).
  { unfold move. destruct ((m >? 0) && (m <? 5)); [lia|].
    destruct ((m <? 0) && (m >? -5)); lia. }
  rewrite (s32_id (move + mot)) by lia.
  rewrite (s32_id (mot - 4)) by lia.
  destruct (Z.abs d <? 3) eqn:E3.
  - destruct (holdingPosition v =? 0) eqn:Eh.
    + destruct (Z.abs d <? 2) eqn:E2; cbn [andb holdingPosition].
      * reflexivity.
      * rewrite Eh. reflexivity.
    + cbn [andb]. rewrite Eh. reflexivity.
  - cbn [holdingPosition]. reflexivity.
Qed.

(** X23. While the controller is not holding, every pass commands a move of
    at least five motor steps in the direction of the target: forward
    when the encoder is four or more ticks short of it, back when it is
    past it. *)
Theorem drive_moves_at_least_five (maxSpeed2 maxSpeed enc mot : Z) (v : Vars) :
  readings_in_range maxSpeed2 maxSpeed enc mot ->
  holdingPosition (position_control maxSpeed2 maxSpeed enc mot v) = 0 ->
  let err := maxSpeed2 - POSITION_BIAS - enc in
  let target := driveTarget (position_control maxSpeed2 maxSpeed enc mot v) in
  (4 <= err /\ mot + 5 <= target) \/ (err < 0 /\ target <= mot - 5).
Proof.
  intros Hr Hh. cbv zeta.
  pose proof (position_control_arith maxSpeed2 maxSpeed enc mot v Hr) as E.
  cbv zeta in E. rewrite E in Hh |- *. clear E.
  unfold POSITION_BIAS in *.
  set (err := maxSpeed2 - 16384 - enc) in *.
  set (d := err / 4) in *.
  assert (Hd : 4 * d <= err < 4 * d + 4).
  { unfold d. pose proof (Z.div_mod err 4). pose proof (Z.mod_pos_bound err 4).
    lia. }
  set (m := d * (if maxSpeed / 32 <? Z.abs d then 2 else 1)) in *.
  assert (Hm : (0 < d -> d <= m) /\ (d < 0 -> m <= d)).
  { unfold m. destruct (maxSpeed / 32 <? Z.abs d); lia. }
  assert (Hmove : 2 <= Z.abs d ->
            (0 < d /\ 5 <= (if (m >? 0) && (m <? 5) then 5
                            else if (m <? 0) && (m >? -5) then -5 else m)) \/
            (d < 0 /\ (if (m >? 0) && (m <? 5) then 5
                       else if (m <? 0) && (m >? -5) then -5 else m) <= -5)).
  { intros Ha.
    destruct (Z.gtb_spec m 0); destruct (Z.ltb_spec m 5);
      destruct (Z.ltb_spec m 0); destruct (Z.gtb_spec m (-5));
      cbn [andb]; lia. }
  destruct (Z.ltb_spec (Z.abs d) 3) as [H3|H3].
  - destruct (holdingPosition v =? 0) eqn:Eh.
    + destruct (Z.ltb_spec (Z.abs d) 2) as [H2|H2].
      * cbn [holdingPosition] in Hh. discriminate Hh.
      * cbn [driveTarget]. destruct (Hmove H2) as [[? ?]|[? ?]]; [left|right]; lia.
    + apply Z.eqb_neq in Eh. contradiction.
  - cbn [driveTarget].
    destruct (Hmove ltac:(lia)) as [[? ?]|[? ?]]; [left|right]; lia.
Qed.

(** X24. The holding band, in encoder ticks.  A controller that is not
    holding starts to hold exactly when the encoder is from 4 ticks past
    the target to 7 ticks short of it, and then parks the motor where it
    is, or 4 steps back when the encoder is past the target.  A
    controller that holds keeps its target while the encoder stays from 8
    ticks past to 11 ticks short, and lets go outside of that. *)
Theorem holding_band (maxSpeed2 maxSpeed enc mot : Z) (v : Vars) :
  readings_in_range maxSpeed2 maxSpeed enc mot ->
  let err := maxSpeed2 - POSITION_BIAS - enc in
  let v' := position_control maxSpeed2 maxSpeed enc mot v in
  (holdingPosition v = 0 ->
   (holdingPosition v' = 1 <-> -4 <= err <= 7) /\
   (-4 <= err <= 7 ->
    driveTarget v' = if err <? 0 then mot - 4 else mot)) /\
  (holdingPosition v <> 0 ->
   (-8 <= err <= 11 -> v' = v) /\
   (err < -8 \/ 11 < err -> holdingPosition v' = 0)).
Proof.
  intros Hr. cbv zeta.
  pose proof (position_control_arith maxSpeed2 maxSpeed enc mot v Hr) as E.
  cbv zeta in E. rewrite E. clear E.
  unfold POSITION_BIAS in *.
  set (err := maxSpeed2 - 16384 - enc) in *.
  set (d := err / 4) in *.
  assert (Hd : 4 * d <= err < 4 * d + 4).
  { unfold d. pose proof (Z.div_mod err 4). pose proof (Z.mod_pos_bound err 4).
    lia. }
  split.
  - intros Hh. rewrite Hh. change (0 =? 0) with true. cbv iota.
    destruct (Z.ltb_spec (Z.abs d) 3) as [H3|H3].
    + destruct (Z.ltb_spec (Z.abs d) 2) as [H2|H2]; cbn [holdingPosition driveTarget].
      * split; [split; [intros _; lia | reflexivity]|].
        intros _. destruct (Z.ltb_spec d 0); destruct (Z.ltb_spec err 0);
          try reflexivity; lia.
      * split; [split; [discriminate | lia]|]. lia.
    + cbn [holdingPosition driveTarget].
      split; [split; [discriminate | lia]|]. lia.
  - intros Hh. apply Z.eqb_neq in Hh. rewrite Hh.
    destruct (Z.ltb_spec (Z.abs d) 3) as [H3|H3].
    + split; [reflexivity | lia].
    + split; [lia | reflexivity].
Qed.

Lemma drive_moves_at_least_five_witness :
  (4 <= 16400 - POSITION_BIAS - 0 /\
   100 + 5 <= driveTarget (position_control 16400 1000 0 100
                             {| holdingPosition := 0; driveTarget := 0 |}))
  \/ (16400 - POSITION_BIAS - 0 < 0 /\
      driveTarget (position_control 16400 1000 0 100
                     {| holdingPosition := 0; driveTarget := 0 |}) <= 100 - 5).
Proof.
  apply (drive_moves_at_least_five 16400 1000 0 100
           {| holdingPosition := 0; driveTarget := 0 |}).
  - unfold readings_in_range. vm_compute.
    repeat split; try discriminate; reflexivity.
  - reflexivity.
Defined.

Lemma holding_band_witness :
  (holdingPosition {| holdingPosition := 0; driveTarget := 0 |} = 0 ->
   (holdingPosition (position_control 16389 1000 0 100
                       {| holdingPosition := 0; driveTarget := 0 |}) = 1
    <-> -4 <= 16389 - POSITION_BIAS - 0 <= 7) /\
   (-4 <= 16389 - POSITION_BIAS - 0 <= 7 ->
    driveTarget (position_control 16389 1000 0 100
                   {| holdingPosition := 0; driveTarget := 0 |})
      = if 16389 - POSITION_BIAS - 0 <? 0 then 100 - 4 else 100)) /\
  (holdingPosition {| holdingPosition := 0; driveTarget := 0 |} <> 0 ->
   (-8 <= 16389 - POSITION_BIAS - 0 <= 11 ->
    position_control 16389 1000 0 100
      {| holdingPosition := 0; driveTarget := 0 |}
    = {| holdingPosition := 0; driveTarget := 0 |}) /\
   (16389 - POSITION_BIAS - 0 < -8 \/ 11 < 16389 - POSITION_BIAS - 0 ->
    holdingPosition (position_control 16389 1000 0 100
                       {| holdingPosition := 0; driveTarget := 0 |}) = 0)).
Proof.
  apply (holding_band 16389 1000 0 100
           {| holdingPosition := 0; driveTarget := 0 |}).
  unfold readings_in_range. vm_compute.
  repeat split; try discriminate; reflexivity.
Defined.

End NanoJFacts.

Module NanotecFacts.
Import Nanotec.

Lemma array_set_in_range dest i c :
  (i < List.length dest)%nat ->
  array_set dest (Z.of_nat i) c = Some (<[i := c]> dest).
Proof.
  intros H. unfold array_set.
  replace ((0 <=? Z.of_nat i) && (Z.of_nat i <? Z.of_nat (List.length dest)))
    with true
    by (symmetry; apply andb_true_iff;
        split; [apply Z.leb_le | apply Z.ltb_lt]; lia).
  rewrite Nat2Z.id. reflexivity.
Qed.

Lemma readResponse_loop_spec (L : nat) (rest : list Z) (resp : list Z) :
  forall (done d : list Z),
  (1 <= L)%nat ->
  Forall (fun c => c <> 13) resp ->
  (List.length done + List.length resp <= 255)%nat ->
  List.length d = L ->
  d !! (L - 1)%nat = Some 0 ->
  take (List.length done `min` (L - 1)) d
    = take (List.length done `min` (L - 1)) done ->
  exists d',
    readResponse_loop (resp ++ 13 :: rest) (Z.of_nat L)
                      (Z.of_nat (List.length done)) d
      = Some (Z.of_nat (List.length (done ++ resp)), d', rest) /\
    List.length d' = L /\
    take (List.length (done ++ resp) `min` (L - 1)) d'
      = take (List.length (done ++ resp) `min` (L - 1)) (done ++ resp) /\
    d' !! (List.length (done ++ resp) `min` (L - 1))%nat = Some 0.
Proof.
  induction resp as [|c resp IH]; intros done d HL Hno Hlen Hd Hz Ht.
  - rewrite app_nil_r. cbn [app readResponse_loop].
    change (13 =? 13) with true. cbv iota.
    destruct (Z.ltb_spec (Z.of_nat (List.length done)) (Z.of_nat L - 1))
      as [Hlt|Hge].
    + rewrite array_set_in_range by lia.
      eexists. split; [reflexivity|].
      replace (List.length done `min` (L - 1))%nat
        with (List.length done) in * by lia.
      split; [rewrite length_insert; exact Hd|]. split.
      * rewrite take_insert_ge by lia. exact Ht.
      * apply list_lookup_insert_eq. lia.
    + exists d. split; [reflexivity|].
      replace (List.length done `min` (L - 1))%nat with (L - 1)%nat in *
        by lia.
      split; [exact Hd|]. split; [exact Ht | exact Hz].
  - apply Forall_cons in Hno as [Hc Hrest].
    cbn [List.length] in Hlen.
    cbn [app readResponse_loop].
    replace (c =? 13) with false by (symmetry; apply Z.eqb_neq; exact Hc).
    rewrite (u8_id (Z.of_nat (List.length done) + 1)) by lia.
    replace (Z.of_nat (List.length done) + 1)
      with (Z.of_nat (List.length (done ++ [c])))
      by (rewrite length_app; cbn [List.length]; lia).
    replace (done ++ c :: resp) with ((done ++ [c]) ++ resp)
      by (rewrite <- app_assoc; reflexivity).
    destruct (Z.ltb_spec (Z.of_nat (List.length done)) (Z.of_nat L - 1))
      as [Hlt|Hge].
    + rewrite array_set_in_range by lia.
      apply IH; try assumption.
      * rewrite length_app. cbn [List.length]. lia.
      * rewrite length_insert. exact Hd.
      * rewrite list_lookup_insert_ne by lia. exact Hz.
      * rewrite length_app. cbn [List.length].
        replace (List.length done `min` (L - 1))%nat
          with (List.length done) in Ht by lia.
        replace ((List.length done + 1) `min` (L - 1))%nat
          with (S (List.length done)) by lia.
        rewrite (take_S_r _ _ c)
          by (apply list_lookup_insert_eq; lia).
        rewrite take_insert_ge by lia. rewrite Ht.
        rewrite take_ge by lia.
        rewrite take_ge by (rewrite length_app; cbn [List.length]; lia).
        reflexivity.
    + apply IH; try assumption.
      * rewrite length_app. cbn [List.length]. lia.
      * rewrite length_app. cbn [List.length].
        replace (List.length done `min` (L - 1))%nat with (L - 1)%nat in Ht
          by lia.
        replace ((List.length done + 1) `min` (L - 1))%nat with (L - 1)%nat
          by lia.
        rewrite Ht. rewrite take_app_le by lia. reflexivity.
Qed.

Lemma readResponse_spec (L : nat) (resp rest dest : list Z) :
  (1 <= L)%nat ->
  List.length dest = L ->
  Forall (fun c => c <> 13) resp ->
  (List.length resp <= 255)%nat ->
  exists d,
    readResponse (resp ++ 13 :: rest) (Z.of_nat L) dest
      = Some (Z.of_nat (List.length resp), d, rest) /\
    List.length d = L /\
    take (List.length resp `min` (L - 1)) d
      = take (List.length resp `min` (L - 1)) resp /\
    d !! (List.length resp `min` (L - 1))%nat = Some 0.
Proof.
  intros HL Hd Hno Hlen. unfold readResponse.
  replace (Z.of_nat L - 1) with (Z.of_nat (L - 1)) by lia.
  rewrite array_set_in_range by lia.
  apply (readResponse_loop_spec L rest resp [] (<[(L - 1)%nat := 0]> dest));
    try assumption.
  - rewrite length_insert. exact Hd.
  - apply list_lookup_insert_eq. lia.
  - reflexivity.
Qed.


Lemma strncmp_equal_prefix (cmp : list Z) : forall (buf : list Z),
  Forall (fun c => c <> 0) cmp ->
  (List.length cmp <= List.length buf)%nat ->
  exists r, strncmp_equal (cmp ++ [0]) buf (List.length cmp) = Some r /\
            (r = true <-> take (List.length cmp) buf = cmp).
Proof.
  induction cmp as [|x cmp IH]; intros buf Hnz Hlen.
  - exists true. split; [reflexivity|]. split; reflexivity.
  - inversion Hnz as [|? ? Hx Hrest]; subst.
    destruct buf as [|y buf]; [cbn in Hlen; lia|].
    cbn [List.length] in Hlen. cbn [app List.length strncmp_equal take].
    destruct (Z.eqb_spec x y) as [->|Hne].
    + replace (y =? 0) with false by (symmetry; apply Z.eqb_neq; exact Hx).
      destruct (IH buf Hrest) as (r & -> & Hr); [lia|].
      exists r. split; [reflexivity|]. rewrite Hr. split.
      * intros ->. reflexivity.
      * intros E. injection E as E. exact E.
    + exists false. split; [reflexivity|]. split; [discriminate|].
      intros E. injection E as E _. exfalso. apply Hne. symmetry. exact E.
Qed.

(** X22. [isResponse] accepts an answer exactly when the answer begins with
    the expected text. *)
Theorem isResponse_iff_prefix (cmp resp rest respbuf : list Z) :
  List.length respbuf = 20%nat ->
  Forall (fun c => c <> 0) cmp ->
  (List.length cmp <= 19)%nat ->
  Forall (fun c => c <> 13) resp ->
  (List.length resp <= 255)%nat ->
  exists r,
    isResponse (resp ++ 13 :: rest) cmp respbuf = Some (r, rest) /\
    (r = true <-> take (List.length cmp) resp = cmp).
Proof.
  intros Hbuf Hnz Hcl Hno Hlen. unfold isResponse.
  destruct (readResponse_spec 20 resp rest respbuf) as (d & Hr & Hd & Ht & _);
    try assumption; [lia|].
  change (Z.of_nat 20) with 20 in Hr. rewrite Hr.
  destruct (Z.ltb_spec (Z.of_nat (List.length resp))
                       (Z.of_nat (List.length cmp))) as [Hshort|Hlong].
  - exists false. split; [reflexivity|]. split; [discriminate|].
    intros E. apply (f_equal (@List.length Z)) in E.
    rewrite length_take in E. lia.
  - destruct (strncmp_equal_prefix cmp d Hnz) as (r & -> & Hiff); [lia|].
    exists r. split; [reflexivity|]. rewrite Hiff.
    assert (E : take (List.length cmp) d = take (List.length cmp) resp).
    { apply (f_equal (take (List.length cmp))) in Ht.
      rewrite !take_take in Ht.
      replace (List.length cmp `min` (List.length resp `min` (20 - 1)))%nat
        with (List.length cmp) in Ht by lia.
      exact Ht. }
    rewrite E. reflexivity.
Qed.


Lemma isResponse_iff_prefix_witness :
  exists r,
    isResponse ([49; 90; 80; 43] ++ 13 :: []) [49; 90; 80] (replicate 20 1)
      = Some (r, []) /\
    (r = true <-> take (List.length [49; 90; 80]) [49; 90; 80; 43]
                  = [49; 90; 80]).
Proof.
  apply (isResponse_iff_prefix [49; 90; 80] [49; 90; 80; 43] []
           (replicate 20 1)).
  - reflexivity.
  - repeat constructor; discriminate.
  - vm_compute. lia.
  - repeat constructor; discriminate.
  - vm_compute. lia.
Defined.

End NanotecFacts.
